(** * Deduplicator add-on: duplicate grouping and tagging

    A shallow embedding of the deduplication core of
    [deduplicator_anki/__init__.py]: key extraction ([_get_dedup_key]),
    grouping ([_group_duplicates]), canonical selection and tagging
    ([_apply_tag_to_duplicates]) and the orchestration around them
    ([_collect_note_ids], [_tag_duplicates], [_on_ok]).

    Note identifiers are Python integers ([Z]); a dedup key is a tuple of
    strings ([list string]); the dictionary built by the grouper is an
    insertion-ordered association list, because the tagger iterates it in
    insertion order and its writes are observable one by one. *)

From Stdlib Require Import ZArith DecimalString.
From stdpp Require Import base option list sorting numbers strings gmap.

Local Open Scope string_scope.
Local Open Scope list_scope.
Local Open Scope Z_scope.

(** ** Python values *)

(** The exceptions the core can meet: [findNotes] rejecting the filter,
    [getNote] on an identifier that is not in the collection, and a tuple
    indexed out of range. Each carries its message, which is what [str(e)]
    prints. *)
Inductive exn : Type :=
  | FilterError (msg : string)
  | NotFoundError (msg : string)
  | IndexError (msg : string).

Definition str_exn (e : exn) : string :=
  match e with
  | FilterError msg | NotFoundError msg | IndexError msg => msg
  end.

Inductive result (A : Type) : Type :=
  | Ok (a : A)
  | Raise (e : exn).
Arguments Ok {A} a.
Arguments Raise {A} e.

(** [str(n)] for a Python int. *)
Definition str_int (n : Z) : string := NilZero.string_of_int (Z.to_int n).

(** ** The collection (external collaborator) *)

(** Modelled from the spec: the host's note object is not part of this
    repository. A note is an ordered mapping from field names to field
    values, the cards derived from it, and its tags; a tag is attached
    non-destructively and attaching it twice has the effect of once. *)
Record Note : Type := mkNote {
  note_items : list (string * string);
  note_cards : list Z;
  note_tags : gset string
}.

Definition keys (note : Note) : list string := (note_items note).*1.
Definition values (note : Note) : list string := (note_items note).*2.
Definition cards (note : Note) : list Z := note_cards note.

Definition addTag (tag : string) (note : Note) : Note :=
  {| note_items := note_items note;
     note_cards := note_cards note;
     note_tags := {[ tag ]} ∪ note_tags note |}.

(** Modelled from the spec: the host [mw] is not part of this repository.
    [notes] is the collection, [findNotes] resolves a filter expression to
    identifiers or fails, [flushed] logs every [note.flush()] in order,
    [shown] logs every [showInfo] message, [resets] counts [mw.reset()],
    [closed] records [self.close()]. *)
Record World : Type := mkWorld {
  notes : gmap Z Note;
  findNotes : string → result (list Z);
  not_found_msg : Z → string;
  flushed : list Z;
  shown : list string;
  resets : nat;
  closed : bool
}.

Definition getNote (w : World) (note_id : Z) : result Note :=
  match notes w !! note_id with
  | Some note => Ok note
  | None => Raise (NotFoundError (not_found_msg w note_id))
  end.

Definition flush (note_id : Z) (note : Note) (w : World) : World :=
  {| notes := <[note_id := note]> (notes w);
     findNotes := findNotes w;
     not_found_msg := not_found_msg w;
     flushed := flushed w ++ [note_id];
     shown := shown w;
     resets := resets w;
     closed := closed w |}.

Definition showInfo (msg : string) (w : World) : World :=
  {| notes := notes w;
     findNotes := findNotes w;
     not_found_msg := not_found_msg w;
     flushed := flushed w;
     shown := shown w ++ [msg];
     resets := resets w;
     closed := closed w |}.

Definition reset (w : World) : World :=
  {| notes := notes w;
     findNotes := findNotes w;
     not_found_msg := not_found_msg w;
     flushed := flushed w;
     shown := shown w;
     resets := S (resets w);
     closed := closed w |}.

Definition close (w : World) : World :=
  {| notes := notes w;
     findNotes := findNotes w;
     not_found_msg := not_found_msg w;
     flushed := flushed w;
     shown := shown w;
     resets := resets w;
     closed := true |}.

(** ** Computations that write to the world and may raise

    The world reached when an exception is raised is kept: a write that
    was flushed before the exception stays flushed. *)
Definition M (A : Type) : Type := World → World * result A.

Definition ret {A} (a : A) : M A := λ w, (w, Ok a).
Definition bind {A B} (m : M A) (k : A → M B) : M B :=
  λ w, match m w with
       | (w', Ok a) => k a w'
       | (w', Raise e) => (w', Raise e)
       end.

Notation "x <- m ;; k" := (bind m (λ x, k))
  (at level 100, m at next level, right associativity, only parsing).

(** ** The window's state and constants *)

Definition COMBINE_ALL_OPTION : string := "Combine All Keys".
Definition DEFAULT_TAG_NAME : string := "duplicate-card".

Record DuplicateTaggerWindow : Type := mkWindow {
  anki_filter : string;
  selected_key : string;
  tag_name : string
}.

Definition COMBINE_ALL : string := COMBINE_ALL_OPTION.

(** Python's [x or y] on strings. *)
Definition str_or (x y : string) : string :=
  match x with
  | EmptyString => y
  | _ => x
  end.

(** ** Key extraction *)

Abbreviation Key := (list string).

(** [l.index(x)]: the first position of [x] in [l]. *)
Definition index (x : string) (l : list string) : option nat :=
  fst <$> list_find (λ y, y = x) l.

Definition _get_dedup_key (self : DuplicateTaggerWindow) (note : Note)
  : option Key :=
  if decide (selected_key self = COMBINE_ALL) then Some (values note)
  else if decide (selected_key self ∈ keys note) then
    idx ← index (selected_key self) (keys note);
    v ← values note !! idx;
    Some [v]
  else None.

(** ** Grouping *)

Abbreviation Groups := (list (Key * list Z)).

(** [duplicates[dedup_key].append(note_id)] on a [defaultdict(list)]: an
    existing bucket grows in place, a new key is added after the others. *)
Fixpoint dict_append (k : Key) (note_id : Z) (d : Groups) : Groups :=
  match d with
  | [] => [(k, [note_id])]
  | (k', ids) :: d' =>
      if decide (k' = k) then (k', ids ++ [note_id]) :: d'
      else (k', ids) :: dict_append k note_id d'
  end.

Fixpoint group_loop (self : DuplicateTaggerWindow) (w : World)
  (note_ids : list Z) (duplicates : Groups) : result Groups :=
  match note_ids with
  | [] => Ok duplicates
  | note_id :: rest =>
      match getNote w note_id with
      | Raise e => Raise e
      | Ok note =>
          match cards note with
          | [] => group_loop self w rest duplicates
          | _ :: _ =>
              match _get_dedup_key self note with
              | None => group_loop self w rest duplicates
              | Some dedup_key =>
                  group_loop self w rest
                    (dict_append dedup_key note_id duplicates)
              end
          end
      end
  end.

Definition _group_duplicates (self : DuplicateTaggerWindow) (w : World)
  (note_ids : list Z) : result Groups :=
  group_loop self w note_ids [].

(** ** Canonical selection and tagging *)

Definition max_details : nat := 50.

Definition sorted (l : list Z) : list Z := merge_sort Z.le l.

Record TagAcc : Type := mkAcc {
  total_tagged : Z;
  details : list string
}.

Definition detail_line (key_display : string) (note_id : Z) : string :=
  key_display +:+ ": note_id:" +:+ str_int note_id +:+ " [TAGGED]".

(** The bookkeeping of one tagged note: the count and the capped trace. *)
Definition acc_note (key_display : string) (note_id : Z) (acc : TagAcc)
  : TagAcc :=
  {| total_tagged := total_tagged acc + 1;
     details :=
       if decide (length (details acc) < max_details)%nat
       then details acc ++ [detail_line key_display note_id]
       else details acc |}.

(** The body of the inner loop: fetch, tag, flush, count, trace. *)
Definition tag_note (tag key_display : string) (note_id : Z) (acc : TagAcc)
  : M TagAcc :=
  λ w, match getNote w note_id with
       | Raise e => (w, Raise e)
       | Ok note =>
           (flush note_id (addTag tag note) w,
            Ok (acc_note key_display note_id acc))
       end.

Fixpoint tag_notes (tag key_display : string) (ids : list Z) (acc : TagAcc)
  : M TagAcc :=
  match ids with
  | [] => ret acc
  | note_id :: rest =>
      acc' <- tag_note tag key_display note_id acc ;;
      tag_notes tag key_display rest acc'
  end.

(** [key_display]: [key[0]] raises on the empty tuple. *)
Definition key_display_of (self : DuplicateTaggerWindow) (key : Key)
  : result string :=
  if decide (selected_key self = COMBINE_ALL) then Ok "(combined keys)"
  else match key with
       | k0 :: _ => Ok k0
       | [] => Raise (IndexError "tuple index out of range")
       end.

Definition lift {A} (r : result A) : M A := λ w, (w, r).

(** The body of the outer loop, for one item of the dictionary. *)
Definition tag_bucket (self : DuplicateTaggerWindow) (tag : string)
  (item : Key * list Z) (acc : TagAcc) : M TagAcc :=
  if decide (length item.2 ≤ 1)%nat then ret acc
  else
    key_display <- lift (key_display_of self item.1) ;;
    tag_notes tag key_display (tail (sorted item.2)) acc.

Fixpoint tag_buckets (self : DuplicateTaggerWindow) (tag : string)
  (duplicates : Groups) (acc : TagAcc) : M TagAcc :=
  match duplicates with
  | [] => ret acc
  | item :: rest =>
      acc' <- tag_bucket self tag item acc ;;
      tag_buckets self tag rest acc'
  end.

Definition _apply_tag_to_duplicates (self : DuplicateTaggerWindow)
  (duplicates : Groups) (tag_to_apply : string) : M (Z * list string) :=
  acc <- tag_buckets self tag_to_apply duplicates
          {| total_tagged := 0; details := [] |} ;;
  ret (total_tagged acc, details acc).

(** ** Orchestration *)

Definition _collect_note_ids (self : DuplicateTaggerWindow)
  : M (option (list Z)) :=
  λ w, match findNotes w (anki_filter self) with
       | Ok ids => (w, Ok (Some ids))
       | Raise e =>
           (showInfo ("Error executing filter: " +:+ str_exn e) w, Ok None)
       end.

Definition summary (total : Z) (tag_to_apply : string) : string :=
  "Total: " +:+ str_int total +:+ " notes tagged as '" +:+ tag_to_apply
  +:+ "'".

(** The rest of [_tag_duplicates] once the groups are built: tag, format
    the summary, reset the host's views. The tagger is called outside any
    [try], so what it raises leaves [_tag_duplicates] as it is. *)
Definition tag_and_report (self : DuplicateTaggerWindow)
  (duplicates : Groups) : M (option string) :=
  let tag_to_apply := str_or (tag_name self) DEFAULT_TAG_NAME in
  res <- _apply_tag_to_duplicates self duplicates tag_to_apply ;;
  let message := summary res.1 tag_to_apply in
  λ w, (reset w, Ok (Some message)).

Definition _tag_duplicates (self : DuplicateTaggerWindow)
  : M (option string) :=
  note_ids <- _collect_note_ids self ;;
  match note_ids with
  | None => ret None
  | Some note_ids =>
      λ w, match _group_duplicates self w note_ids with
           | Raise e =>
               (showInfo ("Error while locating duplicates: " +:+ str_exn e) w,
                Ok None)
           | Ok duplicates => tag_and_report self duplicates w
           end
  end.

Definition _on_ok (self : DuplicateTaggerWindow) : M unit :=
  match anki_filter self with
  | EmptyString => λ w, (showInfo "No Anki filter specified" w, Ok tt)
  | _ =>
      tagged <- _tag_duplicates self ;;
      match tagged with
      | Some message => λ w, (close (showInfo message w), Ok tt)
      | None => ret tt
      end
  end.

(** * The vocabulary of the properties *)

(** ** What the grouper files *)

(** The key under which an identifier is filed, if it is filed at all:
    the note must be there, have a card, and have a key. *)
Definition key_of (self : DuplicateTaggerWindow) (w : World) (note_id : Z)
  : option Key :=
  match notes w !! note_id with
  | None => None
  | Some note =>
      match cards note with
      | [] => None
      | _ :: _ => _get_dedup_key self note
      end
  end.

(** [d.get(k, [])] *)
Fixpoint dict_get (k : Key) (d : Groups) : list Z :=
  match d with
  | [] => []
  | (k', ids) :: d' => if decide (k' = k) then ids else dict_get k d'
  end.

Definition nonempty_buckets (d : Groups) : Prop :=
  Forall (λ item, item.2 ≠ []) d.

(** ** What the tagger writes *)

(** The identifiers of a bucket that the tagger writes, in the order it
    writes them, and the ones it leaves alone. *)
Definition to_tag (ids : list Z) : list Z :=
  if decide (length ids ≤ 1)%nat then [] else tail (sorted ids).

Definition kept (ids : list Z) : list Z :=
  if decide (length ids ≤ 1)%nat then ids else take 1 (sorted ids).

Definition tag_plan (duplicates : Groups) : list Z :=
  concat (to_tag <$> duplicates.*2).

(** The effect of the inner loop's body on the collection. *)
Definition tag_in_store (tag : string) (w : World) (note_id : Z) : World :=
  match notes w !! note_id with
  | Some note => flush note_id (addTag tag note) w
  | None => w
  end.

Definition tag_all (tag : string) (ids : list Z) (w : World) : World :=
  foldl (tag_in_store tag) w ids.

Definition acc_notes (key_display : string) (ids : list Z) (acc : TagAcc)
  : TagAcc :=
  foldl (λ acc note_id, acc_note key_display note_id acc) acc ids.

Definition acc_bucket (self : DuplicateTaggerWindow) (acc : TagAcc)
  (item : Key * list Z) : TagAcc :=
  match key_display_of self item.1 with
  | Ok key_display => acc_notes key_display (to_tag item.2) acc
  | Raise _ => acc
  end.

Definition acc_buckets (self : DuplicateTaggerWindow) (duplicates : Groups)
  (acc : TagAcc) : TagAcc :=
  foldl (acc_bucket self) acc duplicates.

(** The trace the tagger returns when nothing raises. *)
Definition trace_of (self : DuplicateTaggerWindow) (duplicates : Groups)
  : list string :=
  details (acc_buckets self duplicates {| total_tagged := 0; details := [] |}).

(** Every key the tagger has to display can be displayed. *)
Definition displayable (self : DuplicateTaggerWindow) (duplicates : Groups)
  : Prop :=
  Forall (λ item, selected_key self = COMBINE_ALL ∨ item.1 ≠ []) duplicates.

Definition present (w : World) (ids : list Z) : Prop :=
  Forall (λ note_id, is_Some (notes w !! note_id)) ids.

(** The writes of a run that leads from [w] to [w']. *)
Definition new_writes (w w' : World) : list Z :=
  drop (length (flushed w)) (flushed w').

(** [note_id] was labelled on the way from [w] to [w']: it was written and
    its note is the old one with the tag added. *)
Definition labelled (tag : string) (w w' : World) (note_id : Z) : Prop :=
  note_id ∈ new_writes w w'
  ∧ (∃ note, notes w !! note_id = Some note
             ∧ notes w' !! note_id = Some (addTag tag note)).

(** [note_id] was not written on the way from [w] to [w'] and its note is
    what it was. *)
Definition untouched (w w' : World) (note_id : Z) : Prop :=
  (note_id ∉ new_writes w w') ∧ notes w' !! note_id = notes w !! note_id.

(** The number of notes the tagger is to write: [n - 1] for each bucket
    of [n ≥ 2] identifiers. *)
Definition expected_count (duplicates : Groups) : Z :=
  foldr (λ item s,
           (if decide (2 ≤ length item.2)%nat
            then Z.of_nat (length item.2) - 1 else 0) + s)
        0 duplicates.

Definition tag_to_apply_of (self : DuplicateTaggerWindow) : string :=
  str_or (tag_name self) DEFAULT_TAG_NAME.

(** Two maps with the same keys in the same order whose buckets hold the
    same identifiers, in any order. *)
Definition same_buckets (duplicates duplicates' : Groups) : Prop :=
  Forall2 (λ item item', item.1 = item'.1 ∧ item.2 ≡ₚ item'.2)
          duplicates duplicates'.

(** ** The data of the spec's scenarios *)

Definition ex_note (front back : string) (note_cards : list Z) : Note :=
  mkNote [("Front", front); ("Back", back)] note_cards ∅.

(** Notes 1, 2 and 6 are duplicates, 3 is on its own, 4 repeats 1 and 2
    but has no card, 5 repeats their values under other field names. *)
Definition ex_notes : gmap Z Note :=
  <[1 := ex_note "A" "X" [11]]>
    (<[2 := ex_note "A" "X" [21]]>
       (<[3 := ex_note "B" "Y" [31]]>
          (<[4 := ex_note "A" "X" []]>
             (<[5 := mkNote [("Question", "A"); ("Answer", "X")] [51] ∅]>
                (<[6 := ex_note "A" "X" [61]]> ∅))))).

Definition ex_world (found : result (list Z)) : World :=
  {| notes := ex_notes;
     findNotes := λ _, found;
     not_found_msg := λ note_id, "note " +:+ str_int note_id +:+ " not found";
     flushed := [];
     shown := [];
     resets := 0;
     closed := false |}.

Definition ex_window (key : string) : DuplicateTaggerWindow :=
  {| anki_filter := "deck:Default"; selected_key := key; tag_name := "dup" |}.

Definition ex_groups : Groups := [(["A"; "X"], [2; 1]); (["B"; "Y"], [3])].

(** The collection after note 5 has been deleted from it. *)
Definition vanished_world (found : result (list Z)) : World :=
  {| notes := delete 5 ex_notes;
     findNotes := λ _, found;
     not_found_msg := λ note_id, "note " +:+ str_int note_id +:+ " not found";
     flushed := [];
     shown := [];
     resets := 0;
     closed := false |}.

(** The groups built while note 5 was there. *)
Definition vanished_groups : Groups :=
  [(["A"; "X"], [6; 5; 2; 1]); (["B"; "Y"], [3])].

(** ** The grouper's result and the tagger's trace, said directly *)

(** The keys of a list in the order in which each is met first. *)
Definition first_seen (ks : list Key) : list Key :=
  foldl (λ seen k, if decide (k ∈ seen) then seen else seen ++ [k]) [] ks.

(** The dictionary with one bucket per key met, in the order in which the
    keys are met first, each bucket listing in input order the identifiers
    filed under its key. *)
Definition grouped (self : DuplicateTaggerWindow) (w : World)
  (note_ids : list Z) : Groups :=
  (λ k, (k, filter (λ note_id, key_of self w note_id = Some k) note_ids))
    <$> first_seen (omap (key_of self w) note_ids).

(** One trace line per note to tag, uncapped. *)
Definition trace_lines (self : DuplicateTaggerWindow) (duplicates : Groups)
  : list string :=
  concat ((λ item,
             match key_display_of self item.1 with
             | Ok key_display => detail_line key_display <$> to_tag item.2
             | Raise _ => []
             end) <$> duplicates).

(** ** Settings: [_load_config] and [_save_config] *)

(** A value found in the settings document: a string, or any other JSON
    value, of which the code only ever tests the truth value. *)
Inductive pyval : Type :=
  | PStr (s : string)
  | PNonStr (truth : bool).

(** Python's truth value. *)
Definition truthy (v : pyval) : bool :=
  match v with
  | PStr EmptyString => false
  | PStr _ => true
  | PNonStr truth => truth
  end.

(** [not config.get(k)] *)
Definition falsy (v : option pyval) : bool :=
  match v with
  | Some v => negb (truthy v)
  | None => true
  end.

(** What reading [config.json] comes to: the file system and [json] are
    not part of the repository. Either something raises, or the file is
    not there, or [json.load] returns a dict or something else. *)
Inductive config_file : Type :=
  | ReadFails (msg : string)
  | NoFile
  | Loaded (loaded : gmap string pyval)
  | LoadedNotDict.

Definition DEFAULT_CONFIG : gmap string pyval :=
  <["ankiFilter" := PStr EmptyString]>
    (<["dedupKey" := PStr COMBINE_ALL_OPTION]>
       (<["tagName" := PStr DEFAULT_TAG_NAME]> ∅)).

(** The body of [if isinstance(loaded, dict)]. *)
Definition merge_loaded (loaded config : gmap string pyval)
  : gmap string pyval :=
  let config := filter (λ item, is_Some (config !! item.1)) loaded ∪ config in
  let config :=
    match loaded !! "selectedKey", loaded !! "dedupKey" with
    | Some v, None => <["dedupKey" := v]> config
    | _, _ => config
    end in
  match loaded !! "selectedMethod", loaded !! "tagName" with
  | Some _, None => <["tagName" := PStr DEFAULT_TAG_NAME]> config
  | _, _ => config
  end.

Definition _load_config (file : config_file) (w : World)
  : World * gmap string pyval :=
  let config := DEFAULT_CONFIG in
  let '(w, config) :=
    match file with
    | ReadFails msg => (showInfo ("Error loading config: " +:+ msg) w, config)
    | NoFile | LoadedNotDict => (w, config)
    | Loaded loaded => (w, merge_loaded loaded config)
    end in
  let config :=
    if falsy (config !! "tagName")
    then <["tagName" := PStr DEFAULT_TAG_NAME]> config else config in
  let config :=
    if falsy (config !! "dedupKey")
    then <["dedupKey" := PStr COMBINE_ALL]> config else config in
  (w, config).

(** The dict that [_save_config] dumps. *)
Definition saved_config (self : DuplicateTaggerWindow) : gmap string pyval :=
  <["ankiFilter" := PStr (anki_filter self)]>
    (<["dedupKey" := PStr (selected_key self)]>
       (<["tagName" := PStr (str_or (tag_name self) DEFAULT_TAG_NAME)]> ∅)).

(** [_save_config]: [write_error] is what opening or writing the file
    raises, if it does; the result is the dict the file holds when nothing
    was raised. *)
Definition _save_config (self : DuplicateTaggerWindow)
  (write_error : option string) (w : World)
  : World * option (gmap string pyval) :=
  match write_error with
  | None => (w, Some (saved_config self))
  | Some msg => (showInfo ("Error saving config: " +:+ msg) w, None)
  end.

(** What [_load_config] makes of a dict, said key by key. *)
Definition resolved_filter (loaded : gmap string pyval) : pyval :=
  default (PStr EmptyString) (loaded !! "ankiFilter").

Definition resolved_key (loaded : gmap string pyval) : pyval :=
  match (match loaded !! "dedupKey" with
         | Some v => Some v
         | None => loaded !! "selectedKey"
         end) with
  | Some v => if truthy v then v else PStr COMBINE_ALL
  | None => PStr COMBINE_ALL
  end.

Definition resolved_tag (loaded : gmap string pyval) : pyval :=
  match loaded !! "tagName" with
  | Some v => if truthy v then v else PStr DEFAULT_TAG_NAME
  | None => PStr DEFAULT_TAG_NAME
  end.

(** ** The key selector: [_update_field_list] *)

(** The part of the window that [_update_field_list] works on: the
    settings, the set [self.field_names], and the combo box (its items
    and its current text; [None] when it has no item). Signals are
    blocked while the combo box is rebuilt, so no handler runs. *)
Record Form : Type := mkForm {
  window : DuplicateTaggerWindow;
  field_names : gset string;
  key_combo : list string;
  key_current : option string
}.

(** Modelled from the spec: Qt's combo box is not part of the repository.
    On a combo box that is not editable [setCurrentText] selects the item
    with that text, if there is one, and otherwise leaves the selection. *)
Definition setCurrentText (text : string) (items : list string)
  (current : option string) : option string :=
  if decide (text ∈ items) then Some text else current.

(** [sorted(self.field_names)] *)
Definition sorted_names (names : gset string) : list string :=
  merge_sort String.le (elements names).

(** The fallback for hosts without [field_names_for_note_ids]: the keys
    of the notes, fetched one by one. *)
Fixpoint collect_field_names (w : World) (note_ids : list Z)
  (names : gset string) : gset string * result unit :=
  match note_ids with
  | [] => (names, Ok tt)
  | note_id :: rest =>
      match getNote w note_id with
      | Raise e => (names, Raise e)
      | Ok note =>
          collect_field_names w rest (names ∪ list_to_set (keys note))
      end
  end.

(** [field_names_for_note_ids] is the host's method of that name, when the
    host has one. *)
Definition _update_field_list
  (field_names_for_note_ids : option (list Z → list string))
  (form : Form) (w : World) : World * Form * result unit :=
  let self := window form in
  match anki_filter self with
  | EmptyString => (w, form, Ok tt)
  | _ =>
      match findNotes w (anki_filter self) with
      | Raise e =>
          (showInfo ("Invalid Anki filter syntax: " +:+ str_exn e) w,
           form, Ok tt)
      | Ok note_ids =>
          let '(names, fetched) :=
            match field_names_for_note_ids with
            | Some method => (list_to_set (method note_ids), Ok tt)
            | None => collect_field_names w (take 100 note_ids) ∅
            end in
          match fetched with
          | Raise e =>
              (w, {| window := self; field_names := names;
                     key_combo := key_combo form;
                     key_current := key_current form |}, Raise e)
          | Ok _ =>
              let items := COMBINE_ALL :: sorted_names names in
              let current := Some COMBINE_ALL in
              if decide (selected_key self ∈ names
                         ∨ selected_key self = COMBINE_ALL)
              then
                (w, {| window := self; field_names := names;
                       key_combo := items;
                       key_current :=
                         setCurrentText (selected_key self) items current |},
                 Ok tt)
              else
                (w, {| window :=
                         {| anki_filter := anki_filter self;
                            selected_key := COMBINE_ALL;
                            tag_name := tag_name self |};
                       field_names := names;
                       key_combo := items;
                       key_current :=
                         setCurrentText COMBINE_ALL items current |},
                 Ok tt)
          end
      end
  end.

(** * Key extraction *)

Section key_extraction.
Context (self : DuplicateTaggerWindow).

Lemma get_dedup_key_combine note :
  selected_key self = COMBINE_ALL →
  _get_dedup_key self note = Some (values note).
Proof. intros Hsel. unfold _get_dedup_key. by rewrite decide_True. Qed.

Lemma get_dedup_key_absent note :
  selected_key self ≠ COMBINE_ALL →
  selected_key self ∉ keys note →
  _get_dedup_key self note = None.
Proof.
  intros Hsel Hnot. unfold _get_dedup_key.
  rewrite decide_False by done. by rewrite decide_False.
Qed.

Lemma get_dedup_key_present note :
  selected_key self ≠ COMBINE_ALL →
  selected_key self ∈ keys note →
  ∃ (i : nat) (v : string),
    note_items note !! i = Some (selected_key self, v)
    ∧ (∀ j, (j < i)%nat → keys note !! j ≠ Some (selected_key self))
    ∧ _get_dedup_key self note = Some [v].
Proof.
  intros Hsel Hin. unfold _get_dedup_key.
  rewrite decide_False by done. rewrite decide_True by done.
  destruct (list_find_elem_of (λ y, y = selected_key self) (keys note)
              (selected_key self) Hin eq_refl) as [[i y] Hfind].
  unfold index. rewrite Hfind. simpl.
  apply list_find_Some in Hfind as (Hi & -> & Hfirst).
  unfold keys in Hi. rewrite list_lookup_fmap in Hi.
  destruct (note_items note !! i) as [[f v]|] eqn:Hitem; simplify_eq/=.
  exists i, v. split_and!; [done| |].
  - intros j Hj Hk. by eapply Hfirst.
  - unfold values. rewrite list_lookup_fmap, Hitem. done.
Qed.

(** A key built from one field is never the empty tuple. *)
Lemma get_dedup_key_field_nonempty note key :
  selected_key self ≠ COMBINE_ALL →
  _get_dedup_key self note = Some key → key ≠ [].
Proof.
  intros Hsel. unfold _get_dedup_key.
  rewrite decide_False by done.
  case_decide; [|done].
  destruct (index _ _); simpl; [|done].
  destruct (values note !! _); simpl; [|done].
  by intros [= <-].
Qed.
End key_extraction.

(** * Grouping *)

Section dict.
Implicit Types (k : Key) (d : Groups).

Lemma dict_get_append k k' note_id d :
  dict_get k (dict_append k' note_id d)
  = if decide (k' = k) then dict_get k d ++ [note_id] else dict_get k d.
Proof.
  induction d as [|[k0 ids] d IH]; simpl.
  - repeat case_decide; done.
  - destruct (decide (k0 = k')) as [->|Hne]; simpl.
    + repeat case_decide; done.
    + rewrite IH. repeat case_decide; congruence.
Qed.

Lemma dict_append_keys k note_id d :
  (dict_append k note_id d).*1
  = if decide (k ∈ d.*1) then d.*1 else d.*1 ++ [k].
Proof.
  induction d as [|[k0 ids] d IH].
  - rewrite decide_False; [done|]. by intros ?%elem_of_nil.
  - destruct (decide (k ∈ ((k0, ids) :: d).*1)) as [Hin|Hnin]; csimpl in *;
      destruct (decide (k0 = k)) as [->|Hne]; csimpl; try done.
    + rewrite IH. rewrite decide_True; [done|].
      apply elem_of_cons in Hin as [?|?]; congruence.
    + exfalso. apply Hnin. by left.
    + rewrite IH. rewrite decide_False; [done|].
      intros ?. apply Hnin. by right.
Qed.

Lemma dict_append_NoDup k note_id d :
  NoDup d.*1 → NoDup (dict_append k note_id d).*1.
Proof.
  intros Hd. rewrite dict_append_keys. case_decide; [done|].
  apply NoDup_app. split_and!; [done| |apply NoDup_singleton].
  intros x Hx ->%list_elem_of_singleton. done.
Qed.

Lemma dict_append_nonempty k note_id d :
  nonempty_buckets d → nonempty_buckets (dict_append k note_id d).
Proof.
  unfold nonempty_buckets.
  induction 1 as [|[k0 ids] d Hne Hd IH]; simpl.
  - repeat constructor. done.
  - case_decide; constructor; simpl in *; try done.
    by destruct ids.
Qed.

Lemma dict_get_elem_of k ids d :
  NoDup d.*1 → (k, ids) ∈ d → dict_get k d = ids.
Proof.
  induction d as [|[k0 ids0] d IH]; simpl; intros Hd Hin.
  - by apply elem_of_nil in Hin.
  - apply NoDup_cons in Hd as [Hk0 Hd].
    apply elem_of_cons in Hin as [[= <- <-]|Hin].
    + by rewrite decide_True.
    + rewrite decide_False; [by apply IH|].
      intros ->. apply Hk0. apply list_elem_of_fmap. by exists (k, ids).
Qed.
End dict.

Lemma dict_get_nonempty_elem_of (k : Key) (d : Groups) :
  dict_get k d ≠ [] → (k, dict_get k d) ∈ d.
Proof.
  induction d as [|[k0 ids] d IH]; simpl; [done|].
  destruct (decide (k0 = k)) as [->|Hne]; intros Hget.
  - by left.
  - right. by apply IH.
Qed.

Section grouping.
Context (self : DuplicateTaggerWindow) (w : World).

(** One turn of the loop, by what the collection holds. *)
Lemma group_loop_cons note_id rest d :
  group_loop self w (note_id :: rest) d
  = match notes w !! note_id with
    | None => Raise (NotFoundError (not_found_msg w note_id))
    | Some _ =>
        group_loop self w rest
          (match key_of self w note_id with
           | Some k => dict_append k note_id d
           | None => d
           end)
    end.
Proof.
  simpl. unfold getNote, key_of.
  destruct (notes w !! note_id) as [note|]; [|done].
  destruct (cards note); [done|].
  by destruct (_get_dedup_key self note).
Qed.

Lemma group_loop_spec note_ids : ∀ d d',
  group_loop self w note_ids d = Ok d' →
  NoDup d.*1 → nonempty_buckets d →
  NoDup d'.*1 ∧ nonempty_buckets d'
  ∧ (∀ note_id, note_id ∈ note_ids → is_Some (notes w !! note_id))
  ∧ ∀ k, dict_get k d'
         = dict_get k d
           ++ filter (λ note_id, key_of self w note_id = Some k) note_ids.
Proof.
  induction note_ids as [|note_id rest IH]; intros d d' Hloop Hnd Hne.
  - simpl in Hloop. injection Hloop as <-. split_and!; try done.
    + by intros ? ?%elem_of_nil.
    + intros k. by rewrite filter_nil, app_nil_r.
  - rewrite group_loop_cons in Hloop.
    destruct (notes w !! note_id) as [note|] eqn:Hnote; [|done].
    destruct (key_of self w note_id) as [k0|] eqn:Hkey.
    + apply IH in Hloop as (Hnd' & Hne' & Hall & Hget);
        [|by apply dict_append_NoDup|by apply dict_append_nonempty].
      split_and!; try done.
      * intros x [->|Hx]%elem_of_cons; [by rewrite Hnote|by apply Hall].
      * intros k. rewrite Hget, dict_get_append, filter_cons.
        destruct (decide (k0 = k)) as [->|Hk].
        -- rewrite decide_True by done. by rewrite <- app_assoc.
        -- rewrite decide_False; [done|]. congruence.
    + apply IH in Hloop as (Hnd' & Hne' & Hall & Hget); try done.
      split_and!; try done.
      * intros x [->|Hx]%elem_of_cons; [by rewrite Hnote|by apply Hall].
      * intros k. rewrite Hget, filter_cons.
        rewrite decide_False; [done|]. congruence.
Qed.

Lemma group_loop_ok note_ids : ∀ d,
  (∀ note_id, note_id ∈ note_ids → is_Some (notes w !! note_id)) →
  ∃ d', group_loop self w note_ids d = Ok d'.
Proof.
  induction note_ids as [|note_id rest IH]; intros d Hall.
  - by exists d.
  - rewrite group_loop_cons.
    destruct (Hall note_id) as [note ->]; [by left|].
    apply IH. intros x Hx. apply Hall. by right.
Qed.

(** A missing note stops the loop with the collection's error. *)
Lemma group_loop_raise note_ids : ∀ d e,
  group_loop self w note_ids d = Raise e →
  ∃ note_id, note_id ∈ note_ids ∧ notes w !! note_id = None
             ∧ e = NotFoundError (not_found_msg w note_id).
Proof.
  induction note_ids as [|note_id rest IH]; intros d e Hloop; [done|].
  rewrite group_loop_cons in Hloop.
  destruct (notes w !! note_id) as [note|] eqn:Hnote.
  - apply IH in Hloop as (x & Hx & Hnone & ->).
    exists x. split_and!; [by right|done..].
  - injection Hloop as <-. exists note_id. split_and!; [by left|done..].
Qed.

Lemma group_duplicates_spec note_ids duplicates :
  _group_duplicates self w note_ids = Ok duplicates →
  NoDup duplicates.*1 ∧ nonempty_buckets duplicates
  ∧ (∀ note_id, note_id ∈ note_ids → is_Some (notes w !! note_id))
  ∧ ∀ k, dict_get k duplicates
         = filter (λ note_id, key_of self w note_id = Some k) note_ids.
Proof.
  intros Hgroup. unfold _group_duplicates in Hgroup.
  apply group_loop_spec in Hgroup as (? & ? & ? & Hget);
    [|constructor|constructor].
  split_and!; try done.
Qed.

(** What a bucket holds: the identifiers filed under its key, in the
    order of the input. *)
Lemma group_duplicates_bucket note_ids duplicates key ids :
  _group_duplicates self w note_ids = Ok duplicates →
  (key, ids) ∈ duplicates →
  ids = filter (λ note_id, key_of self w note_id = Some key) note_ids.
Proof.
  intros (Hnd & _ & _ & Hget)%group_duplicates_spec Hin.
  rewrite <- Hget. symmetry. by apply dict_get_elem_of.
Qed.

Lemma group_duplicates_elem_of note_ids duplicates key ids note_id :
  _group_duplicates self w note_ids = Ok duplicates →
  (key, ids) ∈ duplicates → note_id ∈ ids →
  note_id ∈ note_ids ∧ key_of self w note_id = Some key.
Proof.
  intros Hgroup Hin Hid.
  rewrite (group_duplicates_bucket _ _ _ _ Hgroup Hin) in Hid.
  by apply list_elem_of_filter in Hid as [? ?].
Qed.

Lemma group_duplicates_filed note_ids duplicates key note_id :
  _group_duplicates self w note_ids = Ok duplicates →
  note_id ∈ note_ids → key_of self w note_id = Some key →
  ∃ ids, (key, ids) ∈ duplicates ∧ note_id ∈ ids.
Proof.
  intros (Hnd & _ & _ & Hget)%group_duplicates_spec Hid Hkey.
  exists (dict_get key duplicates).
  assert (note_id ∈ dict_get key duplicates) as Hmem.
  { rewrite Hget. by apply list_elem_of_filter. }
  split; [|done]. apply dict_get_nonempty_elem_of.
  intros Hnil. rewrite Hnil in Hmem. by apply elem_of_nil in Hmem.
Qed.

Lemma group_duplicates_ok note_ids :
  (∀ note_id, note_id ∈ note_ids → is_Some (notes w !! note_id)) →
  ∃ duplicates, _group_duplicates self w note_ids = Ok duplicates.
Proof. apply group_loop_ok. Qed.
End grouping.

(** * Tagging *)

Lemma addTag_idemp tag note : addTag tag (addTag tag note) = addTag tag note.
Proof.
  unfold addTag. simpl. f_equal.
  by rewrite (assoc_L (∪)), (idemp_L (∪)).
Qed.

Lemma addTag_tagged tag note : tag ∈ note_tags (addTag tag note).
Proof. simpl. apply elem_of_union_l. by apply elem_of_singleton. Qed.

Lemma addTag_mono tag note : note_tags note ⊆ note_tags (addTag tag note).
Proof. simpl. apply union_subseteq_r. Qed.

Section store.
Context (tag : string).

Lemma tag_in_store_lookup w note_id x :
  notes (tag_in_store tag w note_id) !! x
  = if decide (x = note_id) then addTag tag <$> notes w !! x
    else notes w !! x.
Proof.
  unfold tag_in_store.
  destruct (notes w !! note_id) as [note|] eqn:Hnote; simpl.
  - destruct (decide (x = note_id)) as [->|Hne].
    + by rewrite lookup_insert_eq, Hnote.
    + by rewrite lookup_insert_ne.
  - destruct (decide (x = note_id)) as [->|Hne]; [by rewrite Hnote|done].
Qed.

Lemma tag_all_cons note_id rest w :
  tag_all tag (note_id :: rest) w
  = tag_all tag rest (tag_in_store tag w note_id).
Proof. done. Qed.

Lemma tag_all_lookup ids : ∀ w x,
  notes (tag_all tag ids w) !! x
  = if decide (x ∈ ids) then addTag tag <$> notes w !! x
    else notes w !! x.
Proof.
  induction ids as [|note_id rest IH]; intros w x.
  - rewrite decide_False; [done|]. by intros ?%elem_of_nil.
  - rewrite tag_all_cons, IH, tag_in_store_lookup.
    destruct (decide (x = note_id)) as [->|Hne].
    + rewrite (decide_True (P := note_id ∈ note_id :: rest)) by by left.
      case_decide; [|done].
      destruct (notes w !! note_id); simpl; [|done].
      by rewrite addTag_idemp.
    + destruct (decide (x ∈ rest)) as [Hin|Hnin].
      * rewrite decide_True; [done|]. by right.
      * rewrite decide_False; [done|].
        intros [?|?]%elem_of_cons; done.
Qed.

Lemma tag_all_is_Some ids w x :
  is_Some (notes (tag_all tag ids w) !! x) ↔ is_Some (notes w !! x).
Proof.
  rewrite tag_all_lookup. case_decide; [|done].
  by rewrite fmap_is_Some.
Qed.

Lemma tag_all_app ids1 ids2 w :
  tag_all tag (ids1 ++ ids2) w = tag_all tag ids2 (tag_all tag ids1 w).
Proof. unfold tag_all. by rewrite foldl_app. Qed.

Lemma tag_all_flushed ids : ∀ w,
  Forall (λ note_id, is_Some (notes w !! note_id)) ids →
  flushed (tag_all tag ids w) = flushed w ++ ids.
Proof.
  induction ids as [|note_id rest IH]; intros w Hall.
  - simpl. by rewrite app_nil_r.
  - apply Forall_cons in Hall as [[note Hnote] Hrest].
    rewrite tag_all_cons, IH.
    + unfold tag_in_store. rewrite Hnote. simpl. by rewrite <- app_assoc.
    + eapply Forall_impl; [exact Hrest|]. intros x Hx. simpl in Hx.
      apply (tag_all_is_Some [note_id] w x). done.
Qed.

(** Tagging touches the collection and the write log only. *)
Lemma tag_all_frame ids : ∀ w,
  shown (tag_all tag ids w) = shown w
  ∧ resets (tag_all tag ids w) = resets w
  ∧ closed (tag_all tag ids w) = closed w
  ∧ findNotes (tag_all tag ids w) = findNotes w
  ∧ not_found_msg (tag_all tag ids w) = not_found_msg w.
Proof.
  induction ids as [|note_id rest IH]; intros w; [done|].
  rewrite tag_all_cons.
  destruct (IH (tag_in_store tag w note_id)) as (-> & -> & -> & -> & ->).
  unfold tag_in_store. by destruct (notes w !! note_id).
Qed.

Lemma tag_all_new_writes ids w :
  Forall (λ note_id, is_Some (notes w !! note_id)) ids →
  new_writes w (tag_all tag ids w) = ids.
Proof.
  intros Hall. unfold new_writes. rewrite tag_all_flushed by done.
  by rewrite drop_app_length.
Qed.

(** No label is removed, no note appears or disappears, no field or
    card changes. *)
Lemma tag_all_mono ids w note_id note :
  notes w !! note_id = Some note →
  ∃ note', notes (tag_all tag ids w) !! note_id = Some note'
           ∧ note_items note' = note_items note
           ∧ note_cards note' = note_cards note
           ∧ note_tags note ⊆ note_tags note'.
Proof.
  intros Hnote. rewrite tag_all_lookup, Hnote. case_decide; simpl.
  - exists (addTag tag note). split_and!; try done. apply addTag_mono.
  - by exists note.
Qed.

Lemma tag_all_idemp ids w :
  notes (tag_all tag ids (tag_all tag ids w)) = notes (tag_all tag ids w).
Proof.
  apply map_eq. intros x. rewrite !tag_all_lookup.
  case_decide; [|done].
  destruct (notes w !! x); simpl; [|done]. by rewrite addTag_idemp.
Qed.
End store.

Lemma present_tag_all tag ids0 ids w :
  present (tag_all tag ids0 w) ids ↔ present w ids.
Proof.
  unfold present. rewrite !Forall_forall.
  split; intros H x Hx; apply (tag_all_is_Some tag ids0 w x); auto.
Qed.

Lemma acc_notes_total key_display ids : ∀ acc,
  total_tagged (acc_notes key_display ids acc)
  = total_tagged acc + Z.of_nat (length ids).
Proof.
  induction ids as [|note_id rest IH]; intros acc.
  - simpl. lia.
  - unfold acc_notes in *. cbn [foldl]. rewrite IH. simpl. lia.
Qed.

Section tagger.
Context (self : DuplicateTaggerWindow) (tag : string).

(** *** The inner loop *)

Lemma tag_notes_ok key_display ids : ∀ acc w,
  present w ids →
  tag_notes tag key_display ids acc w
  = (tag_all tag ids w, Ok (acc_notes key_display ids acc)).
Proof.
  induction ids as [|note_id rest IH]; intros acc w Hall; [done|].
  apply Forall_cons in Hall as [[note Hnote] Hrest].
  cbn [tag_notes]. unfold bind, tag_note, getNote. rewrite Hnote.
  rewrite IH.
  - rewrite tag_all_cons. unfold tag_in_store. by rewrite Hnote.
  - apply (present_tag_all tag [note_id] rest w) in Hrest.
    rewrite tag_all_cons in Hrest. unfold tag_in_store in Hrest.
    by rewrite Hnote in Hrest.
Qed.

(** Whatever the outcome, the loop has tagged a prefix of its list. *)
Lemma tag_notes_run key_display ids : ∀ acc w w' r,
  tag_notes tag key_display ids acc w = (w', r) →
  ∃ tagged, tagged `prefix_of` ids ∧ present w tagged
            ∧ w' = tag_all tag tagged w
            ∧ (∀ a, r = Ok a → tagged = ids).
Proof.
  induction ids as [|note_id rest IH]; intros acc w w' r Hrun.
  - injection Hrun as <- <-. exists []. split_and!; try done. constructor.
  - cbn [tag_notes] in Hrun. unfold bind, tag_note, getNote in Hrun.
    destruct (notes w !! note_id) as [note|] eqn:Hnote.
    + apply IH in Hrun as (tagged & Hpre & Hall & -> & Hok).
      exists (note_id :: tagged). split_and!.
      * by apply prefix_cons.
      * apply Forall_cons. split; [by rewrite Hnote|].
        apply (present_tag_all tag [note_id] tagged w).
        rewrite tag_all_cons. unfold tag_in_store. by rewrite Hnote.
      * rewrite tag_all_cons. unfold tag_in_store. by rewrite Hnote.
      * intros a Ha. f_equal. by eapply Hok.
    + injection Hrun as <- <-. exists []. split_and!; try done.
      * apply prefix_nil.
      * constructor.
Qed.

(** *** One bucket *)

Lemma key_display_of_ok (key : Key) :
  selected_key self = COMBINE_ALL ∨ key ≠ [] →
  ∃ key_display, key_display_of self key = Ok key_display.
Proof.
  unfold key_display_of. intros [Hsel|Hkey].
  - rewrite decide_True by done. by eexists.
  - case_decide; [by eexists|]. destruct key; [done|by eexists].
Qed.

Lemma tag_bucket_ok item acc w :
  selected_key self = COMBINE_ALL ∨ item.1 ≠ [] →
  present w (to_tag item.2) →
  tag_bucket self tag item acc w
  = (tag_all tag (to_tag item.2) w, Ok (acc_bucket self acc item)).
Proof.
  intros Hdisp Hall. unfold tag_bucket, acc_bucket, to_tag in *.
  destruct (key_display_of_ok item.1 Hdisp) as [kd Hkd].
  unfold bind, lift. rewrite Hkd. case_decide; [done|].
  by apply tag_notes_ok.
Qed.

Lemma tag_bucket_run item acc w w' r :
  tag_bucket self tag item acc w = (w', r) →
  ∃ tagged, tagged `prefix_of` to_tag item.2 ∧ present w tagged
            ∧ w' = tag_all tag tagged w
            ∧ (∀ a, r = Ok a → tagged = to_tag item.2).
Proof.
  unfold tag_bucket, to_tag. case_decide.
  - intros [= <- <-]. exists []. split_and!; try done. constructor.
  - unfold bind, lift. destruct (key_display_of self item.1) as [kd|e].
    + apply tag_notes_run.
    + intros [= <- <-]. exists []. split_and!; try done.
      * apply prefix_nil.
      * constructor.
Qed.

(** *** The outer loop *)

Lemma tag_plan_cons item rest :
  tag_plan (item :: rest) = to_tag item.2 ++ tag_plan rest.
Proof. done. Qed.

Lemma tag_buckets_ok duplicates : ∀ acc w,
  displayable self duplicates →
  present w (tag_plan duplicates) →
  tag_buckets self tag duplicates acc w
  = (tag_all tag (tag_plan duplicates) w,
     Ok (acc_buckets self duplicates acc)).
Proof.
  induction duplicates as [|item rest IH]; intros acc w Hdisp Hall; [done|].
  apply Forall_cons in Hdisp as [Hitem Hdisp].
  rewrite tag_plan_cons in *. apply Forall_app in Hall as [Hhere Hrest].
  cbn [tag_buckets]. unfold bind.
  rewrite tag_bucket_ok by done. rewrite IH; [|done|].
  - by rewrite tag_all_app.
  - by apply present_tag_all.
Qed.

Lemma tag_buckets_run duplicates : ∀ acc w w' r,
  tag_buckets self tag duplicates acc w = (w', r) →
  ∃ tagged, tagged `prefix_of` tag_plan duplicates ∧ present w tagged
            ∧ w' = tag_all tag tagged w
            ∧ (∀ a, r = Ok a → tagged = tag_plan duplicates).
Proof.
  induction duplicates as [|item rest IH]; intros acc w w' r Hrun.
  - injection Hrun as <- <-. exists []. split_and!; try done. constructor.
  - cbn [tag_buckets] in Hrun. unfold bind in Hrun.
    destruct (tag_bucket self tag item acc w) as [w1 [acc1|e]] eqn:Hb;
      apply tag_bucket_run in Hb as (tagged1 & Hpre1 & Hall1 & -> & Hok1).
    + apply IH in Hrun as (tagged2 & Hpre2 & Hall2 & -> & Hok2).
      rewrite (Hok1 acc1 eq_refl) in *.
      exists (to_tag item.2 ++ tagged2). rewrite tag_plan_cons. split_and!.
      * by apply prefix_app.
      * apply Forall_app. split; [done|]. by eapply present_tag_all.
      * by rewrite tag_all_app.
      * intros a Ha. f_equal. by eapply Hok2.
    + injection Hrun as <- <-. exists tagged1. split_and!; try done.
      rewrite tag_plan_cons. by apply prefix_app_r.
Qed.

Lemma acc_buckets_total duplicates : ∀ acc,
  displayable self duplicates →
  total_tagged (acc_buckets self duplicates acc)
  = total_tagged acc + Z.of_nat (length (tag_plan duplicates)).
Proof.
  induction duplicates as [|item rest IH]; intros acc Hdisp.
  - simpl. lia.
  - apply Forall_cons in Hdisp as [Hitem Hdisp].
    unfold acc_buckets in *. cbn [foldl]. rewrite IH by done.
    rewrite tag_plan_cons, length_app. unfold acc_bucket.
    destruct (key_display_of_ok item.1 Hitem) as [kd ->].
    rewrite acc_notes_total. lia.
Qed.

(** *** The tagger *)

Lemma apply_tag_ok duplicates w :
  displayable self duplicates →
  present w (tag_plan duplicates) →
  _apply_tag_to_duplicates self duplicates tag w
  = (tag_all tag (tag_plan duplicates) w,
     Ok (Z.of_nat (length (tag_plan duplicates)),
         trace_of self duplicates)).
Proof.
  intros Hdisp Hall. unfold _apply_tag_to_duplicates, bind.
  rewrite tag_buckets_ok by done. unfold ret, trace_of.
  rewrite acc_buckets_total by done. done.
Qed.

Lemma apply_tag_run duplicates w w' r :
  _apply_tag_to_duplicates self duplicates tag w = (w', r) →
  ∃ tagged, tagged `prefix_of` tag_plan duplicates ∧ present w tagged
            ∧ w' = tag_all tag tagged w
            ∧ (∀ a, r = Ok a → tagged = tag_plan duplicates).
Proof.
  unfold _apply_tag_to_duplicates, bind. intros Hrun.
  destruct (tag_buckets self tag duplicates _ w) as [w1 [acc1|e]] eqn:Hb;
    apply tag_buckets_run in Hb as (tagged & Hpre & Hall & -> & Hok);
    injection Hrun as <- <-; exists tagged; split_and!; try done.
  intros a _. by eapply Hok.
Qed.
End tagger.

(** * Canonical selection *)

Lemma elem_of_concat {A} (x : A) (ls : list (list A)) :
  x ∈ concat ls ↔ ∃ l, x ∈ l ∧ l ∈ ls.
Proof.
  induction ls as [|l0 ls IH]; simpl.
  - split; [by intros ?%elem_of_nil|]. by intros (l & _ & ?%elem_of_nil).
  - rewrite elem_of_app, IH. split.
    + intros [Hx|(l & Hx & Hl)]; [exists l0|exists l]; split; try done.
      * by left.
      * by right.
    + intros (l & Hx & [->|Hl]%elem_of_cons); [by left|right; eauto].
Qed.

Section selection.
Implicit Types (ids : list Z) (duplicates : Groups).

Lemma sorted_Permutation ids : sorted ids ≡ₚ ids.
Proof. apply merge_sort_Permutation. Qed.

Lemma sorted_StronglySorted ids : StronglySorted Z.le (sorted ids).
Proof. apply StronglySorted_merge_sort; apply _. Qed.

(** Sorting forgets the order in which the grouper met the notes. *)
Lemma sorted_unique ids ids' : ids ≡ₚ ids' → sorted ids = sorted ids'.
Proof.
  intros Hperm. apply (StronglySorted_unique Z.le).
  - apply sorted_StronglySorted.
  - apply sorted_StronglySorted.
  - by rewrite !sorted_Permutation.
Qed.

Lemma sorted_length ids : length (sorted ids) = length ids.
Proof. by rewrite sorted_Permutation. Qed.

(** The head of the sorted bucket is its least identifier. *)
Lemma sorted_head ids :
  (2 ≤ length ids)%nat →
  ∃ i0 rest, sorted ids = i0 :: rest
             ∧ length rest = (length ids - 1)%nat
             ∧ (∀ x, x ∈ ids → i0 ≤ x).
Proof.
  intros Hlen. pose proof (sorted_length ids) as Hl.
  pose proof (sorted_StronglySorted ids) as Hs.
  pose proof (sorted_Permutation ids) as Hp.
  destruct (sorted ids) as [|i0 rest]; simpl in Hl; [lia|].
  exists i0, rest. split_and!; [done|lia|].
  intros x Hx. rewrite <- Hp in Hx.
  apply StronglySorted_inv in Hs as [_ Hle].
  apply elem_of_cons in Hx as [->|Hx]; [lia|].
  rewrite Forall_forall in Hle. by apply Hle.
Qed.

Lemma kept_to_tag ids : kept ids ++ to_tag ids ≡ₚ ids.
Proof.
  unfold kept, to_tag. case_decide; [by rewrite app_nil_r|].
  rewrite <- (sorted_Permutation ids) at 3.
  by destruct (sorted ids).
Qed.

Lemma to_tag_length ids :
  length (to_tag ids)
  = if decide (2 ≤ length ids)%nat then (length ids - 1)%nat else 0%nat.
Proof.
  unfold to_tag. case_decide; case_decide; try lia; [done|].
  rewrite <- (sorted_length ids). by destruct (sorted ids); simpl; lia.
Qed.

Lemma to_tag_submseteq ids : to_tag ids ⊆+ ids.
Proof.
  rewrite <- (kept_to_tag ids) at 2. apply submseteq_inserts_l. done.
Qed.

Lemma tag_plan_submseteq duplicates :
  tag_plan duplicates ⊆+ concat duplicates.*2.
Proof.
  induction duplicates as [|item rest IH]; [done|].
  rewrite tag_plan_cons. csimpl. apply submseteq_app; [|done].
  apply to_tag_submseteq.
Qed.

(** What a bucket keeps and what the tagger writes, over all buckets,
    are different members of the map. *)
Lemma kept_tag_plan_submseteq duplicates key ids :
  (key, ids) ∈ duplicates →
  kept ids ++ tag_plan duplicates ⊆+ concat duplicates.*2.
Proof.
  induction duplicates as [|item rest IH]; intros Hin.
  - by apply elem_of_nil in Hin.
  - rewrite tag_plan_cons. csimpl.
    apply elem_of_cons in Hin as [<-|Hin]; simpl.
    + rewrite (assoc (++)). apply submseteq_app.
      * by rewrite kept_to_tag.
      * apply tag_plan_submseteq.
    + rewrite (assoc (++)), (comm (++) (kept ids)), <- (assoc (++)).
      apply submseteq_app; [apply to_tag_submseteq|by apply IH].
Qed.

Lemma submseteq_NoDup (l k : list Z) : l ⊆+ k → NoDup k → NoDup l.
Proof.
  intros (k' & Hk)%submseteq_Permutation Hnd. rewrite Hk in Hnd.
  by apply NoDup_app in Hnd as (? & _ & _).
Qed.

Lemma tag_plan_NoDup duplicates :
  NoDup (concat duplicates.*2) → NoDup (tag_plan duplicates).
Proof. apply submseteq_NoDup, tag_plan_submseteq. Qed.

Lemma kept_not_in_plan duplicates key ids x :
  NoDup (concat duplicates.*2) →
  (key, ids) ∈ duplicates → x ∈ kept ids → x ∉ tag_plan duplicates.
Proof.
  intros Hnd Hin Hx.
  pose proof (submseteq_NoDup _ _
                (kept_tag_plan_submseteq _ _ _ Hin) Hnd) as Hnd'.
  apply NoDup_app in Hnd' as (_ & Hdisj & _). by apply Hdisj.
Qed.

Lemma to_tag_in_plan duplicates key ids x :
  (key, ids) ∈ duplicates → x ∈ to_tag ids → x ∈ tag_plan duplicates.
Proof.
  intros Hin Hx. unfold tag_plan. apply elem_of_concat.
  exists (to_tag ids). split; [done|].
  apply list_elem_of_fmap. exists ids. split; [done|].
  apply list_elem_of_fmap. by exists (key, ids).
Qed.

Lemma tag_plan_length duplicates :
  Z.of_nat (length (tag_plan duplicates)) = expected_count duplicates.
Proof.
  induction duplicates as [|item rest IH]; [done|].
  rewrite tag_plan_cons, length_app, Nat2Z.inj_add, IH. simpl.
  rewrite to_tag_length. case_decide; lia.
Qed.
End selection.

Section buckets.
Implicit Types (ids : list Z) (duplicates : Groups).

Lemma bucket_submseteq duplicates key ids :
  (key, ids) ∈ duplicates → ids ⊆+ concat duplicates.*2.
Proof.
  induction duplicates as [|item rest IH]; intros Hin.
  - by apply elem_of_nil in Hin.
  - csimpl. apply elem_of_cons in Hin as [<-|Hin]; simpl.
    + by apply submseteq_inserts_r.
    + apply submseteq_inserts_l. by apply IH.
Qed.

(** The writes that fall into a bucket are the writes planned for it. *)
Lemma bucket_writes duplicates key ids :
  NoDup (concat duplicates.*2) →
  (key, ids) ∈ duplicates →
  filter (λ x, x ∈ ids) (tag_plan duplicates) ≡ₚ to_tag ids.
Proof.
  intros Hnd Hin. apply NoDup_Permutation.
  - by apply NoDup_filter, tag_plan_NoDup.
  - eapply submseteq_NoDup; [apply to_tag_submseteq|].
    eapply submseteq_NoDup; [by eapply bucket_submseteq|done].
  - intros x. rewrite list_elem_of_filter. split.
    + intros [Hx Hplan]. rewrite <- (kept_to_tag ids) in Hx.
      apply elem_of_app in Hx as [Hkept|Htag]; [|done].
      by eapply kept_not_in_plan in Hkept.
    + intros Hx. split; [|by eapply to_tag_in_plan].
      eapply elem_of_submseteq; [exact Hx|apply to_tag_submseteq].
Qed.
End buckets.

(** * The tagger's contract *)

(** C1. On a map of duplicate groups (no identifier filed twice, every
    identifier in the collection, every key displayable) the tagger
    returns the sum of [n - 1] over the buckets of [n ≥ 2] identifiers. In
    such a bucket, sorted ascending, the least identifier is left alone and
    every other member is labelled, and the writes that fall into the
    bucket are those [n - 1] members; a bucket of at most one identifier
    gets no write and its member is left alone. Each write is counted
    once. *)
Theorem apply_tag_canonical self duplicates tag w :
  NoDup (concat duplicates.*2) →
  present w (concat duplicates.*2) →
  displayable self duplicates →
  ∃ w' trace,
    _apply_tag_to_duplicates self duplicates tag w
    = (w', Ok (expected_count duplicates, trace))
    ∧ NoDup (new_writes w w')
    ∧ expected_count duplicates = Z.of_nat (length (new_writes w w'))
    ∧ ∀ key ids, (key, ids) ∈ duplicates →
        ((2 ≤ length ids)%nat →
           ∃ i0 rest,
             sorted ids = i0 :: rest
             ∧ (∀ x, x ∈ ids → i0 ≤ x)
             ∧ untouched w w' i0
             ∧ (∀ x, x ∈ rest → labelled tag w w' x)
             ∧ length rest = (length ids - 1)%nat
             ∧ filter (λ x, x ∈ ids) (new_writes w w') ≡ₚ rest)
        ∧ ((length ids ≤ 1)%nat →
             (∀ x, x ∈ ids → untouched w w' x)
             ∧ filter (λ x, x ∈ ids) (new_writes w w') = []).
Proof.
  intros Hnd Hall Hdisp.
  assert (present w (tag_plan duplicates)) as Hplan.
  { unfold present in *. rewrite Forall_forall in *. intros x Hx.
    apply Hall. eapply elem_of_submseteq; [exact Hx|].
    apply tag_plan_submseteq. }
  pose proof (apply_tag_ok self tag duplicates w Hdisp Hplan) as Hrun.
  exists (tag_all tag (tag_plan duplicates) w), (trace_of self duplicates).
  unfold untouched, labelled.
  rewrite tag_all_new_writes by done. rewrite <- tag_plan_length.
  split_and!; [done|by apply tag_plan_NoDup|done|].
  intros key ids Hin.
  pose proof (bucket_writes duplicates key ids Hnd Hin) as Hwrites.
  split; intros Hlen.
  - destruct (sorted_head ids Hlen) as (i0 & rest & Hsorted & Hrest & Hmin).
    assert (kept ids = [i0] ∧ to_tag ids = rest) as [Hkept Htag].
    { unfold kept, to_tag. rewrite !decide_False by lia.
      by rewrite Hsorted. }
    exists i0, rest.
    split; [done|]. split; [done|]. split; [|split; [|split; [done|]]].
    + assert (i0 ∉ tag_plan duplicates) as Hnot.
      { eapply kept_not_in_plan; [done..|]. rewrite Hkept. by left. }
      split; [done|]. rewrite tag_all_lookup. by rewrite decide_False.
    + intros x Hx. rewrite <- Htag in Hx.
      assert (x ∈ tag_plan duplicates) as Hxplan
        by by eapply to_tag_in_plan.
      split; [done|].
      unfold present in Hplan. rewrite Forall_forall in Hplan.
      destruct (Hplan x Hxplan) as [note Hnote].
      exists note. split; [done|].
      rewrite tag_all_lookup, decide_True by done. by rewrite Hnote.
    + by rewrite <- Htag.
  - assert (kept ids = ids ∧ to_tag ids = []) as [Hkept Htag].
    { unfold kept, to_tag. by rewrite !decide_True by lia. }
    split.
    + intros x Hx.
      assert (x ∉ tag_plan duplicates) as Hnot.
      { eapply kept_not_in_plan; [done..|]. by rewrite Hkept. }
      split; [done|]. rewrite tag_all_lookup. by rewrite decide_False.
    + rewrite Htag in Hwrites. by apply Permutation_nil_r in Hwrites.
Qed.

(** * Whole runs *)

Section runs.
Context (self : DuplicateTaggerWindow).

Lemma filed_is_keyed w note_ids duplicates x :
  _group_duplicates self w note_ids = Ok duplicates →
  x ∈ concat duplicates.*2 → is_Some (key_of self w x).
Proof.
  intros Hgroup (ids & Hx & Hids)%elem_of_concat.
  apply list_elem_of_fmap in Hids as ([key ids'] & -> & Hin).
  destruct (group_duplicates_elem_of self w _ _ _ _ _ Hgroup Hin Hx)
    as [_ Hkey].
  by rewrite Hkey.
Qed.

(** The map the grouper builds meets what the tagger needs. *)
Lemma group_duplicates_taggable w note_ids duplicates :
  _group_duplicates self w note_ids = Ok duplicates →
  present w (concat duplicates.*2) ∧ displayable self duplicates.
Proof.
  intros Hgroup. split.
  - unfold present. rewrite Forall_forall. intros x Hx.
    destruct (filed_is_keyed _ _ _ _ Hgroup Hx) as [key Hkey].
    unfold key_of in Hkey. by destruct (notes w !! x).
  - unfold displayable. rewrite Forall_forall. intros [key ids] Hin.
    destruct (decide (selected_key self = COMBINE_ALL)) as [|Hsel];
      [by left|right]. simpl.
    pose proof (group_duplicates_spec self w _ _ Hgroup)
      as (Hnd & Hne & _ & _).
    unfold nonempty_buckets in Hne. rewrite Forall_forall in Hne.
    destruct ids as [|x ids]; [by destruct (Hne _ Hin)|].
    destruct (group_duplicates_elem_of self w _ _ _ _ x Hgroup Hin)
      as [_ Hkey]; [by left|].
    unfold key_of in Hkey. destruct (notes w !! x) as [note|]; [|done].
    destruct (cards note); [done|].
    by eapply get_dedup_key_field_nonempty.
Qed.

(** Every outcome of [_tag_duplicates]: the notes written are notes that
    the grouper filed, each was in the collection, and the collection
    is the old one with the tag added to them. *)
Lemma tag_duplicates_run w w' r :
  _tag_duplicates self w = (w', r) →
  ∃ tagged,
    present w tagged
    ∧ (∀ x, x ∈ tagged → is_Some (key_of self w x))
    ∧ flushed w' = flushed w ++ tagged
    ∧ notes w' = notes (tag_all (tag_to_apply_of self) tagged w).
Proof.
  unfold _tag_duplicates, bind, _collect_note_ids.
  destruct (findNotes w (anki_filter self)) as [note_ids|e].
  - destruct (_group_duplicates self w note_ids) as [duplicates|e]
      eqn:Hgroup.
    + unfold tag_and_report, bind.
      destruct (_apply_tag_to_duplicates self duplicates _ w)
        as [w1 r1] eqn:Hrun.
      apply apply_tag_run in Hrun as (tagged & Hpre & Hall & -> & _).
      intros Hres. exists tagged.
      assert (flushed w' = flushed (tag_all (tag_to_apply_of self) tagged w)
              ∧ notes w' = notes (tag_all (tag_to_apply_of self) tagged w))
        as [-> ->].
      { destruct r1; injection Hres as <- <-; done. }
      split_and!; [done| |by apply tag_all_flushed|done].
      intros x Hx. eapply filed_is_keyed; [done|].
      eapply elem_of_submseteq; [|apply tag_plan_submseteq].
      by eapply elem_of_prefix.
    + intros [= <- <-]. exists []. simpl. rewrite app_nil_r.
      split_and!; try done; [constructor|by intros ? ?%elem_of_nil].
  - intros [= <- <-]. exists []. simpl. rewrite app_nil_r.
    split_and!; try done; [constructor|by intros ? ?%elem_of_nil].
Qed.

(** A note the grouper does not file is never written. *)
Lemma tag_duplicates_untouched w w' r note_id :
  _tag_duplicates self w = (w', r) →
  key_of self w note_id = None →
  untouched w w' note_id.
Proof.
  intros (tagged & Hall & Hkeyed & Hfl & Hnotes)%tag_duplicates_run Hkey.
  assert (note_id ∉ tagged) as Hnot.
  { intros [key Hin]%Hkeyed. congruence. }
  unfold untouched, new_writes. rewrite Hfl, drop_app_length, Hnotes.
  split; [done|]. rewrite tag_all_lookup. by rewrite decide_False.
Qed.
End runs.

(** * Grouping: the spec's properties *)

Lemma buckets_NoDup (f : Z → option Key) (l : list Z) (d : Groups) :
  NoDup d.*1 →
  (∀ k ids, (k, ids) ∈ d → ids = filter (λ x, f x = Some k) l) →
  NoDup l →
  NoDup (concat d.*2).
Proof.
  intros Hkeys Hbuckets Hl.
  induction d as [|[k ids] d IH]; csimpl; [constructor|].
  apply NoDup_cons in Hkeys as [Hk Hkeys].
  apply NoDup_app. split_and!.
  - rewrite (Hbuckets k ids) by by left. by apply NoDup_filter.
  - intros x Hx (ids' & Hx' & Hids')%elem_of_concat.
    apply list_elem_of_fmap in Hids' as ([k' ids''] & -> & Hin).
    rewrite (Hbuckets k ids) in Hx by by left.
    rewrite (Hbuckets k' ids'') in Hx' by by right.
    apply list_elem_of_filter in Hx as [Hfx _].
    apply list_elem_of_filter in Hx' as [Hfx' _].
    apply Hk. apply list_elem_of_fmap. exists (k', ids'').
    split; [|done]. simpl. congruence.
  - apply IH; [done|]. intros k' ids' Hin. apply Hbuckets. by right.
Qed.

(** A run passes to the tagger what the grouper returns; on distinct
    identifiers that is a map the tagger's contract applies to. *)
Lemma grouped_is_taggable self w note_ids duplicates :
  NoDup note_ids →
  _group_duplicates self w note_ids = Ok duplicates →
  NoDup (concat duplicates.*2)
  ∧ present w (concat duplicates.*2)
  ∧ displayable self duplicates.
Proof.
  intros Hnd Hgroup.
  pose proof (group_duplicates_spec self w _ _ Hgroup) as (Hkeys & _ & _ & _).
  split; [|by eapply group_duplicates_taggable].
  eapply buckets_NoDup; [done| |done].
  intros k ids Hin. by eapply group_duplicates_bucket.
Qed.

(** C5. On distinct identifiers that are all in the collection the
    grouper returns a map in which no identifier is filed twice, neither
    in two buckets nor twice in one, and each bucket lists its identifiers
    in the order of the input: it is the input list restricted to the
    identifiers filed under the bucket's key. *)
Theorem group_duplicates_partition self w note_ids :
  NoDup note_ids →
  present w note_ids →
  ∃ duplicates,
    _group_duplicates self w note_ids = Ok duplicates
    ∧ NoDup (concat duplicates.*2)
    ∧ (∀ i j b1 b2 x,
         duplicates !! i = Some b1 → duplicates !! j = Some b2 →
         x ∈ b1.2 → x ∈ b2.2 → i = j)
    ∧ (∀ key ids, (key, ids) ∈ duplicates →
         ids = filter (λ x, key_of self w x = Some key) note_ids
         ∧ ids `sublist_of` note_ids).
Proof.
  intros Hnd Hall.
  destruct (group_duplicates_ok self w note_ids) as [duplicates Hgroup].
  { unfold present in Hall. by rewrite Forall_forall in Hall. }
  exists duplicates.
  pose proof (group_duplicates_spec self w _ _ Hgroup) as (Hkeys & _ & _ & _).
  split_and!; [done| | |].
  - eapply buckets_NoDup; [done| |done].
    intros k ids Hin. by eapply group_duplicates_bucket.
  - intros i j [k1 ids1] [k2 ids2] x Hi Hj Hx1 Hx2. simpl in *.
    destruct (group_duplicates_elem_of self w _ _ k1 ids1 x Hgroup)
      as [_ Hk1]; [by eapply list_elem_of_lookup_2|done|].
    destruct (group_duplicates_elem_of self w _ _ k2 ids2 x Hgroup)
      as [_ Hk2]; [by eapply list_elem_of_lookup_2|done|].
    assert (k1 = k2) as <- by congruence.
    eapply (NoDup_lookup duplicates.*1 i j k1); [done|..];
      rewrite list_lookup_fmap; [by rewrite Hi|by rewrite Hj].
  - intros key ids Hin.
    pose proof (group_duplicates_bucket self w _ _ _ _ Hgroup Hin) as ->.
    split; [done|]. apply sublist_filter.
Qed.

(** C2. With the "combine all" key the dedup key of a note is the tuple of
    its field values in the note's field order; notes with the same
    values in the same order have the same key, whatever their field
    names, and when both have cards the grouper files them in the same
    bucket. *)
Theorem combine_all_key self :
  selected_key self = COMBINE_ALL →
  (∀ note, _get_dedup_key self note = Some (values note))
  ∧ (∀ note1 note2,
       values note1 = values note2 →
       _get_dedup_key self note1 = _get_dedup_key self note2)
  ∧ (∀ w note_ids duplicates id1 id2 note1 note2,
       _group_duplicates self w note_ids = Ok duplicates →
       id1 ∈ note_ids → id2 ∈ note_ids →
       notes w !! id1 = Some note1 → notes w !! id2 = Some note2 →
       cards note1 ≠ [] → cards note2 ≠ [] →
       values note1 = values note2 →
       ∃ ids, (values note1, ids) ∈ duplicates ∧ id1 ∈ ids ∧ id2 ∈ ids).
Proof.
  intros Hsel. split_and!.
  - intros note. by apply get_dedup_key_combine.
  - intros note1 note2 Hvalues.
    rewrite !get_dedup_key_combine by done. by rewrite Hvalues.
  - intros w note_ids duplicates id1 id2 note1 note2 Hgroup Hid1 Hid2
      Hnote1 Hnote2 Hcards1 Hcards2 Hvalues.
    assert (key_of self w id1 = Some (values note1)) as Hkey1.
    { unfold key_of. rewrite Hnote1. destruct (cards note1); [done|].
      by apply get_dedup_key_combine. }
    assert (key_of self w id2 = Some (values note1)) as Hkey2.
    { unfold key_of. rewrite Hnote2. destruct (cards note2); [done|].
      rewrite Hvalues. by apply get_dedup_key_combine. }
    destruct (group_duplicates_filed self w _ _ _ _ Hgroup Hid1 Hkey1)
      as (ids & Hin & Hmem1).
    exists ids. split_and!; [done..|].
    rewrite (group_duplicates_bucket self w _ _ _ _ Hgroup Hin).
    by apply list_elem_of_filter.
Qed.

(** C3. With a key specification that names a field [F]: on a note that
    has a field named exactly [F] the dedup key is the 1-tuple of the value
    of (the first) field [F]; on a note without it there is no key, the
    grouper files the note in no bucket and no run writes to it. *)
Theorem named_field_key self F note :
  selected_key self = F →
  F ≠ COMBINE_ALL →
  (F ∈ keys note →
     ∃ (i : nat) (v : string),
       note_items note !! i = Some (F, v)
       ∧ (∀ j, (j < i)%nat → keys note !! j ≠ Some F)
       ∧ _get_dedup_key self note = Some [v])
  ∧ (F ∉ keys note →
     _get_dedup_key self note = None
     ∧ ∀ w note_id,
         notes w !! note_id = Some note →
         (∀ note_ids duplicates key ids,
            _group_duplicates self w note_ids = Ok duplicates →
            (key, ids) ∈ duplicates → note_id ∉ ids)
         ∧ (∀ w' r, _tag_duplicates self w = (w', r) →
                    untouched w w' note_id)).
Proof.
  intros <- Hsel. split.
  - intros Hin. by apply get_dedup_key_present.
  - intros Hnot.
    pose proof (get_dedup_key_absent self note Hsel Hnot) as Hnone.
    split; [done|]. intros w note_id Hnote.
    assert (key_of self w note_id = None) as Hkey.
    { unfold key_of. rewrite Hnote. by destruct (cards note). }
    split.
    + intros note_ids duplicates key ids Hgroup Hin Hmem.
      destruct (group_duplicates_elem_of self w _ _ _ _ _ Hgroup Hin Hmem)
        as [_ Hsome].
      congruence.
    + intros w' r Hrun. by eapply tag_duplicates_untouched.
Qed.

(** C4. A note without cards is filed in no bucket, whatever its fields
    and whatever the other notes are, and no run writes to it. *)
Theorem no_cards_skipped self w note_id note :
  notes w !! note_id = Some note →
  cards note = [] →
  (∀ note_ids duplicates key ids,
     _group_duplicates self w note_ids = Ok duplicates →
     (key, ids) ∈ duplicates → note_id ∉ ids)
  ∧ (∀ w' r, _tag_duplicates self w = (w', r) → untouched w w' note_id).
Proof.
  intros Hnote Hcards.
  assert (key_of self w note_id = None) as Hkey.
  { unfold key_of. by rewrite Hnote, Hcards. }
  split.
  - intros note_ids duplicates key ids Hgroup Hin Hmem.
    destruct (group_duplicates_elem_of self w _ _ _ _ _ Hgroup Hin Hmem)
      as [_ Hsome].
    congruence.
  - intros w' r Hrun. by eapply tag_duplicates_untouched.
Qed.

(** * Orchestration: the spec's properties *)

(** C6. When [findNotes] rejects the filter the run stops there: the
    error is shown to the user, [_tag_duplicates] returns [None] (no
    summary, so no count), no note is written, the collection is what it
    was and the host's views are not reset. [_on_ok] then leaves the window
    open. *)
Theorem invalid_filter_aborts self w e :
  findNotes w (anki_filter self) = Raise e →
  ∃ w',
    _tag_duplicates self w = (w', Ok None)
    ∧ shown w' = shown w ++ ["Error executing filter: " +:+ str_exn e]
    ∧ notes w' = notes w
    ∧ flushed w' = flushed w
    ∧ resets w' = resets w
    ∧ (anki_filter self ≠ EmptyString → _on_ok self w = (w', Ok tt))
    ∧ closed w' = closed w.
Proof.
  intros Hfind. eexists. split.
  - unfold _tag_duplicates, bind, _collect_note_ids. rewrite Hfind. done.
  - split_and!; try done. intros Hfilter. unfold _on_ok.
    destruct (anki_filter self) eqn:Hf; [done|]. rewrite <- Hf in *.
    unfold bind, _tag_duplicates, bind, _collect_note_ids.
    rewrite Hfind. done.
Qed.

(** C9. When the filter resolves to no identifier the run succeeds: the
    grouper and the tagger have nothing to do, no note is written, nothing
    is reported as an error, the views are reset and the summary is
    [Total: 0 notes tagged as '<label>'], the label being the configured
    tag name (the default one when the tag name is empty). *)
Theorem empty_result_summary self w :
  findNotes w (anki_filter self) = Ok [] →
  _tag_duplicates self w
  = (reset w,
     Ok (Some ("Total: 0 notes tagged as '" +:+ tag_to_apply_of self +:+ "'")))
  ∧ notes (reset w) = notes w
  ∧ flushed (reset w) = flushed w
  ∧ shown (reset w) = shown w
  ∧ (tag_name self ≠ EmptyString → tag_to_apply_of self = tag_name self)
  ∧ (tag_name self = EmptyString → tag_to_apply_of self = "duplicate-card").
Proof.
  intros Hfind. split_and!; try done.
  - unfold _tag_duplicates, bind, _collect_note_ids. rewrite Hfind. done.
  - unfold tag_to_apply_of. by destruct (tag_name self).
  - unfold tag_to_apply_of. by intros ->.
Qed.

(** A note missing while the groups are built is reported and the run
    stops with nothing written. *)
Lemma grouping_failure_reported self w note_ids note_id :
  findNotes w (anki_filter self) = Ok note_ids →
  note_id ∈ note_ids → notes w !! note_id = None →
  ∃ e, _group_duplicates self w note_ids = Raise e
       ∧ _tag_duplicates self w
         = (showInfo ("Error while locating duplicates: " +:+ str_exn e) w,
            Ok None).
Proof.
  intros Hfind Hin Hnone.
  destruct (_group_duplicates self w note_ids) as [duplicates|e] eqn:Hgroup.
  - apply group_duplicates_spec in Hgroup as (_ & _ & Hall & _).
    destruct (Hall note_id Hin) as [note Hnote]. congruence.
  - exists e. split; [done|].
    unfold _tag_duplicates, bind, _collect_note_ids.
    by rewrite Hfind, Hgroup.
Qed.

(** What the tagger raises leaves [tag_and_report], and so
    [_tag_duplicates], as an exception: nothing is shown, the views are
    not reset. *)
Lemma tagging_failure_propagates self duplicates w w' e :
  _apply_tag_to_duplicates self duplicates (tag_to_apply_of self) w
  = (w', Raise e) →
  tag_and_report self duplicates w = (w', Raise e)
  ∧ shown w' = shown w ∧ resets w' = resets w.
Proof.
  intros Hrun. split.
  - unfold tag_and_report, bind. fold (tag_to_apply_of self).
    by rewrite Hrun.
  - apply apply_tag_run in Hrun as (tagged & _ & _ & -> & _).
    by destruct (tag_all_frame (tag_to_apply_of self) tagged w)
      as (-> & -> & _).
Qed.

(** As long as the collection is not changed from outside between the
    two passes, every note the tagger fetches is one the grouper has
    fetched, and [_tag_duplicates] returns. *)
Lemma tag_duplicates_returns self w :
  ∃ w' r, _tag_duplicates self w = (w', Ok r).
Proof.
  unfold _tag_duplicates, bind, _collect_note_ids.
  destruct (findNotes w (anki_filter self)) as [note_ids|e]; [|by eexists _, _].
  destruct (_group_duplicates self w note_ids) as [duplicates|e] eqn:Hgroup;
    [|by eexists _, _].
  destruct (group_duplicates_taggable self w _ _ Hgroup) as [Hall Hdisp].
  unfold tag_and_report, bind. rewrite apply_tag_ok; [by eexists _, _|done|].
  unfold present in *. rewrite Forall_forall in *. intros x Hx.
  apply Hall. eapply elem_of_submseteq; [exact Hx|apply tag_plan_submseteq].
Qed.

(** * Running the tagger again, and on reordered buckets *)

(** Whatever the outcome of the tagger, no label is removed and no note
    changes otherwise. *)
Lemma apply_tag_monotone self duplicates tag w w' r note_id note :
  _apply_tag_to_duplicates self duplicates tag w = (w', r) →
  notes w !! note_id = Some note →
  ∃ note', notes w' !! note_id = Some note'
           ∧ note_items note' = note_items note
           ∧ note_cards note' = note_cards note
           ∧ note_tags note ⊆ note_tags note'.
Proof.
  intros (tagged & _ & _ & -> & _)%apply_tag_run Hnote.
  by apply tag_all_mono.
Qed.

(** C8. Running the tagger a second time on the same groups returns the
    same count and the same trace as the first time and leaves the notes
    as the first run left them. No label is removed by a run. On the second
    run every note that is written already carries the label, and it is
    written and counted all the same. *)
Theorem apply_tag_twice self duplicates tag w :
  displayable self duplicates →
  present w (tag_plan duplicates) →
  ∃ total trace w1 w2,
    _apply_tag_to_duplicates self duplicates tag w = (w1, Ok (total, trace))
    ∧ _apply_tag_to_duplicates self duplicates tag w1
      = (w2, Ok (total, trace))
    ∧ notes w2 = notes w1
    ∧ (∀ x note, notes w !! x = Some note →
         ∃ note', notes w1 !! x = Some note'
                  ∧ note_tags note ⊆ note_tags note')
    ∧ (∀ x note, notes w1 !! x = Some note →
         ∃ note', notes w2 !! x = Some note'
                  ∧ note_tags note ⊆ note_tags note')
    ∧ (∀ x, x ∈ new_writes w1 w2 →
         ∃ note, notes w1 !! x = Some note ∧ tag ∈ note_tags note)
    ∧ total = Z.of_nat (length (new_writes w1 w2))
    ∧ total = expected_count duplicates.
Proof.
  intros Hdisp Hall.
  pose (w1 := tag_all tag (tag_plan duplicates) w).
  assert (present w1 (tag_plan duplicates)) as Hall1
    by by apply present_tag_all.
  pose proof (apply_tag_ok self tag duplicates w Hdisp Hall) as Hrun1.
  pose proof (apply_tag_ok self tag duplicates w1 Hdisp Hall1) as Hrun2.
  exists (Z.of_nat (length (tag_plan duplicates))), (trace_of self duplicates),
    w1, (tag_all tag (tag_plan duplicates) w1).
  rewrite tag_all_new_writes by done.
  split; [done|]. split; [done|]. split; [apply tag_all_idemp|].
  split; [|split; [|split; [|split; [done|apply tag_plan_length]]]].
  - intros x note Hnote.
    destruct (apply_tag_monotone _ _ _ _ _ _ _ _ Hrun1 Hnote)
      as (note' & ? & _ & _ & ?).
    by exists note'.
  - intros x note Hnote.
    destruct (apply_tag_monotone _ _ _ _ _ _ _ _ Hrun2 Hnote)
      as (note' & ? & _ & _ & ?).
    by exists note'.
  - intros x Hx. unfold present in Hall. rewrite Forall_forall in Hall.
    destruct (Hall x Hx) as [note Hnote].
    exists (addTag tag note). split; [|apply addTag_tagged].
    unfold w1. rewrite tag_all_lookup, decide_True by done.
    by rewrite Hnote.
Qed.

Lemma tag_bucket_Permutation self tag item item' acc w :
  item.1 = item'.1 → item.2 ≡ₚ item'.2 →
  tag_bucket self tag item acc w = tag_bucket self tag item' acc w.
Proof.
  intros Hkey Hperm. unfold tag_bucket.
  rewrite Hkey, (sorted_unique _ _ Hperm), (Permutation_length Hperm). done.
Qed.

Lemma tag_buckets_Permutation self tag duplicates duplicates' :
  same_buckets duplicates duplicates' →
  ∀ acc w,
    tag_buckets self tag duplicates acc w
    = tag_buckets self tag duplicates' acc w.
Proof.
  induction 1 as [|item item' rest rest' [Hkey Hperm] _ IH]; intros acc w;
    [done|].
  cbn [tag_buckets]. unfold bind.
  rewrite (tag_bucket_Permutation _ _ item item') by done.
  destruct (tag_bucket self tag item' acc w) as [w1 [acc1|e]]; [|done].
  apply IH.
Qed.

Lemma tag_plan_Permutation duplicates duplicates' :
  same_buckets duplicates duplicates' →
  tag_plan duplicates = tag_plan duplicates'.
Proof.
  induction 1 as [|item item' rest rest' [Hkey Hperm] _ IH]; [done|].
  rewrite !tag_plan_cons, IH. f_equal. unfold to_tag.
  by rewrite (sorted_unique _ _ Hperm), (Permutation_length Hperm).
Qed.

(** C10. Reordering the identifiers inside the buckets changes nothing:
    the tagger ends in the same world (the same notes labelled, the same
    writes in the same order) with the same result (the same count and
    trace, or the same exception), and the identifiers it is to write
    are the same. *)
Theorem apply_tag_order_irrelevant self duplicates duplicates' tag w :
  same_buckets duplicates duplicates' →
  _apply_tag_to_duplicates self duplicates tag w
  = _apply_tag_to_duplicates self duplicates' tag w
  ∧ tag_plan duplicates = tag_plan duplicates'.
Proof.
  intros Hsame. split; [|by apply tag_plan_Permutation].
  unfold _apply_tag_to_duplicates, bind.
  by rewrite (tag_buckets_Permutation _ _ _ _ Hsame).
Qed.

(** * The spec's scenarios *)

(** Scenario 1: all fields combined. *)
Example scenario_combine_all :
  let w := ex_world (Ok [1; 2; 3]) in
  _group_duplicates (ex_window COMBINE_ALL) w [1; 2; 3]
  = Ok [(["A"; "X"], [1; 2]); (["B"; "Y"], [3])]
  ∧ (_tag_duplicates (ex_window COMBINE_ALL) w).2
    = Ok (Some "Total: 1 notes tagged as 'dup'")
  ∧ flushed (_tag_duplicates (ex_window COMBINE_ALL) w).1 = [2].
Proof. split_and!; compute_done. Qed.

(** Scenario 2: one field as the key. *)
Example scenario_front :
  let w := ex_world (Ok [1; 2; 3]) in
  _group_duplicates (ex_window "Front") w [1; 2; 3]
  = Ok [(["A"], [1; 2]); (["B"], [3])]
  ∧ (_tag_duplicates (ex_window "Front") w).2
    = Ok (Some "Total: 1 notes tagged as 'dup'")
  ∧ flushed (_tag_duplicates (ex_window "Front") w).1 = [2].
Proof. split_and!; compute_done. Qed.

(** Scenario 3: a field no note has. *)
Example scenario_missing :
  let w := ex_world (Ok [1; 2; 3]) in
  _group_duplicates (ex_window "Missing") w [1; 2; 3] = Ok []
  ∧ (_tag_duplicates (ex_window "Missing") w).2
    = Ok (Some "Total: 0 notes tagged as 'dup'")
  ∧ flushed (_tag_duplicates (ex_window "Missing") w).1 = [].
Proof. split_and!; compute_done. Qed.

(** Field names are compared as they are written. *)
Example field_name_case_sensitive :
  _get_dedup_key (ex_window "front") (ex_note "A" "X" [11]) = None
  ∧ _get_dedup_key (ex_window "Front") (ex_note "A" "X" [11]) = Some ["A"].
Proof. split; compute_done. Qed.

(** Without distinct identifiers in a bucket the least identifier is
    written: the tagger drops one occurrence, not one identifier. *)
Example repeated_identifier_is_written :
  flushed (_apply_tag_to_duplicates (ex_window COMBINE_ALL)
             [(["A"; "X"], [1; 1])] "dup" (ex_world (Ok []))).1 = [1].
Proof. compute_done. Qed.

(** C7. A note that is missing when the tagger fetches it: the pass stops
    and the label written before stays (note 2 is labelled, note 6 is
    not reached), but the exception leaves [tag_and_report], the tail of
    [_tag_duplicates], unhandled: nothing is shown to the user. The same
    failure while the groups are built is caught and shown. *)
Theorem tagging_missing_note_unhandled :
  let self := ex_window COMBINE_ALL in
  let w := vanished_world (Ok [6; 5; 2; 1; 3]) in
  _group_duplicates self (ex_world (Ok [6; 5; 2; 1; 3])) [6; 5; 2; 1; 3]
  = Ok vanished_groups
  ∧ tag_and_report self vanished_groups w
    = (tag_all "dup" [2] w, Raise (NotFoundError "note 5 not found"))
  ∧ shown (tag_all "dup" [2] w) = []
  ∧ flushed (tag_all "dup" [2] w) = [2]
  ∧ (∃ note, notes (tag_all "dup" [2] w) !! 2 = Some note
             ∧ "dup" ∈ note_tags note)
  ∧ notes (tag_all "dup" [2] w) !! 6 = notes w !! 6
  ∧ (_tag_duplicates self w).2 = Ok None
  ∧ shown (_tag_duplicates self w).1
    = ["Error while locating duplicates: note 5 not found"].
Proof.
  intros self w. split_and!; try compute_done.
  exists (addTag "dup" (ex_note "A" "X" [21])). split; compute_done.
Qed.

(** * The theorems at work on the scenarios *)

Lemma apply_tag_canonical_witness :
  let w := ex_world (Ok [2; 1; 3]) in
  ∃ w' trace,
    _apply_tag_to_duplicates (ex_window COMBINE_ALL) ex_groups "dup" w
    = (w', Ok (1, trace))
    ∧ untouched w w' 1 ∧ labelled "dup" w w' 2 ∧ untouched w w' 3.
Proof.
  intros w.
  destruct (apply_tag_canonical (ex_window COMBINE_ALL) ex_groups "dup" w)
    as (w' & trace & Hrun & _ & _ & Hbuckets); [compute_done..|].
  exists w', trace. split; [exact Hrun|].
  destruct (Hbuckets ["A"; "X"] [2; 1]) as [Htwo _]; [by left|].
  destruct Htwo as (i0 & rest & Hsorted & _ & Hleast & Hrest & _);
    [simpl; lia|].
  vm_compute in Hsorted. injection Hsorted as <- <-.
  destruct (Hbuckets ["B"; "Y"] [3]) as [_ Hone]; [by right; left|].
  destruct Hone as [Hsole _]; [simpl; lia|].
  split_and!; [done|apply Hrest; by left|apply Hsole; by left].
Defined.

Lemma combine_all_key_witness :
  let self := ex_window COMBINE_ALL in
  selected_key self = COMBINE_ALL
  ∧ _get_dedup_key self (ex_note "A" "X" [11]) = Some ["A"; "X"]
  ∧ _get_dedup_key self (ex_note "A" "X" [11])
    = _get_dedup_key self (mkNote [("Question", "A"); ("Answer", "X")] [51] ∅).
Proof.
  intros self.
  destruct (combine_all_key self eq_refl) as (Hkey & Hsame & _).
  split; [reflexivity|]. split; [apply Hkey|apply Hsame; reflexivity].
Defined.

Lemma named_field_key_witness :
  let note := ex_note "A" "X" [11] in
  (∃ (i : nat) (v : string),
     note_items note !! i = Some ("Front", v)
     ∧ (∀ j, (j < i)%nat → keys note !! j ≠ Some "Front")
     ∧ _get_dedup_key (ex_window "Front") note = Some [v])
  ∧ _get_dedup_key (ex_window "Missing") note = None.
Proof.
  intros note. split.
  - destruct (named_field_key (ex_window "Front") "Front" note)
      as [Hpresent _]; [reflexivity|compute_done|].
    apply Hpresent. compute_done.
  - destruct (named_field_key (ex_window "Missing") "Missing" note)
      as [_ Habsent]; [reflexivity|compute_done|].
    apply Habsent. compute_done.
Defined.

Lemma no_cards_skipped_witness :
  let self := ex_window COMBINE_ALL in
  let w := ex_world (Ok [1; 2; 3; 4]) in
  untouched w (_tag_duplicates self w).1 4.
Proof.
  intros self w.
  destruct (no_cards_skipped self w 4 (ex_note "A" "X" []))
    as [_ Hrun]; [compute_done|reflexivity|].
  apply (Hrun _ (_tag_duplicates self w).2).
  by destruct (_tag_duplicates self w).
Defined.

Lemma group_duplicates_partition_witness :
  let self := ex_window COMBINE_ALL in
  let w := ex_world (Ok [3; 2; 1]) in
  ∃ duplicates,
    _group_duplicates self w [3; 2; 1] = Ok duplicates
    ∧ NoDup (concat duplicates.*2).
Proof.
  intros self w.
  destruct (group_duplicates_partition self w [3; 2; 1])
    as (duplicates & Hgroup & Hnd & _); [compute_done..|].
  by exists duplicates.
Defined.

Lemma invalid_filter_aborts_witness :
  let self := ex_window COMBINE_ALL in
  let w := ex_world (Raise (FilterError "unbalanced parenthesis")) in
  ∃ w',
    _tag_duplicates self w = (w', Ok None)
    ∧ shown w' = ["Error executing filter: unbalanced parenthesis"]
    ∧ notes w' = notes w ∧ flushed w' = [].
Proof.
  intros self w.
  destruct (invalid_filter_aborts self w
              (FilterError "unbalanced parenthesis") eq_refl)
    as (w' & Hrun & Hshown & Hnotes & Hflushed & _).
  by exists w'.
Defined.

Lemma apply_tag_twice_witness :
  let self := ex_window COMBINE_ALL in
  let w := ex_world (Ok [2; 1; 3]) in
  ∃ trace w1 w2,
    _apply_tag_to_duplicates self ex_groups "dup" w = (w1, Ok (1, trace))
    ∧ _apply_tag_to_duplicates self ex_groups "dup" w1 = (w2, Ok (1, trace))
    ∧ notes w2 = notes w1.
Proof.
  intros self w.
  destruct (apply_tag_twice self ex_groups "dup" w)
    as (total & trace & w1 & w2 & Hrun1 & Hrun2 & Hnotes & _ & _ & _ & _
        & Htotal); [compute_done..|].
  vm_compute in Htotal. subst total. by exists trace, w1, w2.
Defined.

Lemma empty_result_summary_witness :
  let self := ex_window COMBINE_ALL in
  let w := ex_world (Ok []) in
  _tag_duplicates self w
  = (reset w, Ok (Some "Total: 0 notes tagged as 'dup'")).
Proof.
  intros self w. by destruct (empty_result_summary self w eq_refl) as [-> _].
Defined.

Lemma apply_tag_order_irrelevant_witness :
  let self := ex_window COMBINE_ALL in
  let w := ex_world (Ok [1; 2; 3]) in
  _apply_tag_to_duplicates self ex_groups "dup" w
  = _apply_tag_to_duplicates self
      [(["A"; "X"], [1; 2]); (["B"; "Y"], [3])] "dup" w.
Proof.
  intros self w.
  apply (apply_tag_order_irrelevant self ex_groups
           [(["A"; "X"], [1; 2]); (["B"; "Y"], [3])] "dup" w).
  repeat constructor.
Defined.

(** * More on the grouper *)

Lemma group_loop_keys self w note_ids : ∀ d d',
  group_loop self w note_ids d = Ok d' →
  d'.*1 = foldl (λ seen k, if decide (k ∈ seen) then seen else seen ++ [k])
                d.*1 (omap (key_of self w) note_ids).
Proof.
  induction note_ids as [|note_id rest IH]; intros d d' Hloop.
  - by injection Hloop as <-.
  - rewrite group_loop_cons in Hloop.
    destruct (notes w !! note_id) as [note|] eqn:Hnote; [|done].
    cbn [omap list_omap].
    destruct (key_of self w note_id) as [k|] eqn:Hkey.
    + apply IH in Hloop. by rewrite Hloop, dict_append_keys.
    + by apply IH in Hloop.
Qed.

Lemma buckets_by_key (f : Key → list Z) (d : Groups) :
  (∀ k ids, (k, ids) ∈ d → ids = f k) → d = (λ k, (k, f k)) <$> d.*1.
Proof.
  induction d as [|[k ids] d IH]; intros Hd; [done|].
  csimpl. rewrite (Hd k ids) by by left. f_equal.
  apply IH. intros k' ids' Hin. apply Hd. by right.
Qed.

Lemma group_duplicates_keys self w note_ids duplicates :
  _group_duplicates self w note_ids = Ok duplicates →
  duplicates.*1 = first_seen (omap (key_of self w) note_ids).
Proof. intros Hgroup. exact (group_loop_keys self w note_ids [] _ Hgroup). Qed.

(** X1. When every listed identifier is in the collection the grouper
    returns the dictionary [grouped]: one bucket per key in order of first
    appearance, no key twice, no empty bucket, each bucket in input order.
    When some listed identifier is not in the collection it raises,
    whether or not the note would have been filed. *)
Theorem group_duplicates_grouped self w note_ids :
  (present w note_ids →
     _group_duplicates self w note_ids = Ok (grouped self w note_ids)
     ∧ NoDup (grouped self w note_ids).*1
     ∧ (∀ key ids, (key, ids) ∈ grouped self w note_ids → ids ≠ []))
  ∧ (¬ present w note_ids →
     ∃ e, _group_duplicates self w note_ids = Raise e).
Proof.
  split.
  - intros Hall.
    destruct (group_duplicates_ok self w note_ids) as [duplicates Hgroup].
    { unfold present in Hall. by rewrite Forall_forall in Hall. }
    pose proof (group_duplicates_spec self w _ _ Hgroup)
      as (Hnd & Hne & _ & _).
    assert (duplicates = grouped self w note_ids) as <-.
    { unfold grouped.
      rewrite <- (group_duplicates_keys self w note_ids duplicates Hgroup).
      apply (buckets_by_key
               (λ k, filter (λ note_id, key_of self w note_id = Some k)
                            note_ids)).
      intros k ids Hin. by eapply group_duplicates_bucket. }
    split; [done|]. split; [done|]. intros key ids Hin.
    unfold nonempty_buckets in Hne. rewrite Forall_forall in Hne.
    apply (Hne _ Hin).
  - intros Hnot.
    destruct (_group_duplicates self w note_ids) as [duplicates|e] eqn:Hgroup;
      [|by exists e].
    destruct Hnot. unfold present. rewrite Forall_forall.
    by apply group_duplicates_spec in Hgroup as (_ & _ & Hall & _).
Qed.

Lemma group_loop_first_missing self w found x rest :
  present w found → notes w !! x = None →
  ∀ d, group_loop self w (found ++ x :: rest) d
       = Raise (NotFoundError (not_found_msg w x)).
Proof.
  intros Hfound Hx. induction Hfound as [|y found [note Hy] _ IH]; intros d.
  - rewrite app_nil_l, group_loop_cons. by rewrite Hx.
  - rewrite <- app_comm_cons, group_loop_cons, Hy. apply IH.
Qed.

(** X2. A listed note that is no longer in the collection stops the run
    while the groups are built: the error shown is the collection's error
    for the first such identifier in listing order, [_tag_duplicates]
    returns [None], and nothing else has changed: no note is written, the
    views are not reset. *)
Theorem run_stops_at_first_missing self w found x rest :
  findNotes w (anki_filter self) = Ok (found ++ x :: rest) →
  present w found →
  notes w !! x = None →
  _tag_duplicates self w
  = (showInfo ("Error while locating duplicates: " +:+ not_found_msg w x) w,
     Ok None).
Proof.
  intros Hfind Hfound Hx.
  unfold _tag_duplicates, bind, _collect_note_ids. rewrite Hfind.
  unfold _group_duplicates.
  by rewrite (group_loop_first_missing self w found x rest Hfound Hx).
Qed.

(** * More on the tagger *)

Section tagger_failure.
Context (self : DuplicateTaggerWindow) (tag : string).

Lemma tag_all_missing ids w x :
  notes w !! x = None → notes (tag_all tag ids w) !! x = None.
Proof.
  intros Hx. rewrite tag_all_lookup. case_decide; by rewrite Hx.
Qed.

Lemma tag_notes_stops key_display tagged x rest : ∀ acc w,
  present w tagged → notes w !! x = None →
  tag_notes tag key_display (tagged ++ x :: rest) acc w
  = (tag_all tag tagged w, Raise (NotFoundError (not_found_msg w x))).
Proof.
  induction tagged as [|y tagged IH]; intros acc w Hall Hx.
  - cbn [app tag_notes]. unfold bind, tag_note, getNote. by rewrite Hx.
  - apply Forall_cons in Hall as [[note Hy] Hall].
    cbn [app tag_notes]. unfold bind, tag_note, getNote. rewrite Hy.
    assert (flush y (addTag tag note) w = tag_in_store tag w y) as ->.
    { unfold tag_in_store. by rewrite Hy. }
    rewrite IH.
    + rewrite tag_all_cons. unfold tag_in_store at 2. by rewrite Hy.
    + by apply (present_tag_all tag [y] tagged w).
    + by apply (tag_all_missing [y] w x).
Qed.

Lemma tag_buckets_stops duplicates : ∀ acc w tagged x rest,
  displayable self duplicates →
  tag_plan duplicates = tagged ++ x :: rest →
  present w tagged → notes w !! x = None →
  tag_buckets self tag duplicates acc w
  = (tag_all tag tagged w, Raise (NotFoundError (not_found_msg w x))).
Proof.
  induction duplicates as [|item rest_d IH];
    intros acc w tagged x rest Hdisp Hplan Hall Hx.
  - by destruct tagged.
  - apply Forall_cons in Hdisp as [Hitem Hdisp].
    rewrite tag_plan_cons in Hplan.
    assert ((∃ l, to_tag item.2 = tagged ++ x :: l)
            ∨ (∃ l, tagged = to_tag item.2 ++ l
                    ∧ tag_plan rest_d = l ++ x :: rest)) as [[l Hl]|[l [-> Hl]]].
    { apply app_eq_app in Hplan as [l [[Hl1 Hl2]|[Hl1 Hl2]]].
      - destruct l as [|z l].
        + right. exists []. simpl in Hl2.
          rewrite app_nil_r in Hl1. by rewrite app_nil_r, Hl1.
        + injection Hl2 as <- _. left. by exists l.
      - right. by exists l. }
    + (* the missing note is in this bucket *)
      cbn [tag_buckets]. unfold bind, tag_bucket.
      rewrite decide_False.
      2:{ intros Hlen. unfold to_tag in Hl. rewrite decide_True in Hl by done.
          by destruct tagged. }
      destruct (key_display_of_ok self item.1 Hitem) as [kd Hkd].
      unfold bind, lift. rewrite Hkd.
      unfold to_tag in Hl. case_decide; [by destruct tagged|].
      rewrite Hl. by rewrite tag_notes_stops.
    + (* this bucket is tagged whole *)
      apply Forall_app in Hall as [Hhere Hl_present].
      cbn [tag_buckets]. unfold bind.
      rewrite tag_bucket_ok by done.
      rewrite (IH _ _ l x rest); [|done..| |].
      * rewrite tag_all_app.
        by destruct (tag_all_frame tag (to_tag item.2) w)
          as (_ & _ & _ & _ & ->).
      * by apply present_tag_all.
      * by apply tag_all_missing.
Qed.
End tagger_failure.

(** X3. When the tagger comes to a note that is no longer in the
    collection it raises the collection's error for that note: the notes
    before it in the tagger's order (buckets in dictionary order, each
    sorted, least identifier left out) are written and labelled, that
    note and the ones after it are left as they were. *)
Theorem tagger_stops_at_first_missing self duplicates tag w tagged x rest :
  displayable self duplicates →
  tag_plan duplicates = tagged ++ x :: rest →
  present w tagged →
  notes w !! x = None →
  ∃ w',
    _apply_tag_to_duplicates self duplicates tag w
    = (w', Raise (NotFoundError (not_found_msg w x)))
    ∧ new_writes w w' = tagged
    ∧ (∀ y, y ∈ tagged → labelled tag w w' y)
    ∧ (∀ y, y ∉ tagged → untouched w w' y)
    ∧ shown w' = shown w.
Proof.
  intros Hdisp Hplan Hall Hx. exists (tag_all tag tagged w).
  unfold labelled, untouched. rewrite tag_all_new_writes by done.
  split_and!.
  - unfold _apply_tag_to_duplicates, bind.
    by rewrite (tag_buckets_stops self tag duplicates _ w tagged x rest).
  - done.
  - intros y Hy. split; [done|].
    unfold present in Hall. rewrite Forall_forall in Hall.
    destruct (Hall y Hy) as [note Hnote]. exists note. split; [done|].
    rewrite tag_all_lookup, decide_True by done. by rewrite Hnote.
  - intros y Hy. split; [done|]. rewrite tag_all_lookup.
    by rewrite decide_False.
  - by destruct (tag_all_frame tag tagged w) as (-> & _).
Qed.

(** * The trace *)

Lemma acc_note_details key_display note_id acc (lines : list string) :
  details acc = take max_details lines →
  details (acc_note key_display note_id acc)
  = take max_details (lines ++ [detail_line key_display note_id]).
Proof.
  intros Hacc. unfold acc_note. simpl. rewrite Hacc, length_take.
  case_decide as Hlen.
  - assert (length lines < max_details)%nat as Hlines by lia.
    rewrite !take_ge; [done|rewrite length_app; simpl; lia|lia].
  - rewrite take_app_le; [done|lia].
Qed.

Lemma acc_notes_details key_display ids : ∀ acc (lines : list string),
  details acc = take max_details lines →
  details (acc_notes key_display ids acc)
  = take max_details (lines ++ (detail_line key_display <$> ids)).
Proof.
  induction ids as [|note_id rest IH]; intros acc lines Hacc.
  - simpl. by rewrite app_nil_r.
  - unfold acc_notes in *. cbn [foldl].
    rewrite (IH _ (lines ++ [detail_line key_display note_id])).
    + by rewrite <- app_assoc.
    + by apply acc_note_details.
Qed.

Lemma acc_buckets_details self duplicates : ∀ acc (lines : list string),
  details acc = take max_details lines →
  details (acc_buckets self duplicates acc)
  = take max_details (lines ++ trace_lines self duplicates).
Proof.
  induction duplicates as [|item rest IH]; intros acc lines Hacc.
  - unfold trace_lines. simpl. by rewrite app_nil_r.
  - unfold acc_buckets in *. cbn [foldl]. unfold trace_lines in *. csimpl.
    rewrite (assoc (++)). apply IH. unfold acc_bucket.
    destruct (key_display_of self item.1) as [kd|e].
    + by apply acc_notes_details.
    + by rewrite app_nil_r.
Qed.

Lemma trace_lines_length self duplicates :
  displayable self duplicates →
  length (trace_lines self duplicates) = length (tag_plan duplicates).
Proof.
  induction 1 as [|item rest Hitem _ IH]; [done|].
  rewrite tag_plan_cons. unfold trace_lines in *. csimpl.
  rewrite !length_app, IH.
  destruct (key_display_of_ok self item.1 Hitem) as [kd ->].
  by rewrite length_fmap.
Qed.

(** X4. The trace the tagger returns is capped: it holds the lines of the
    first 50 notes tagged, in the order they are tagged, and no more,
    while the count goes on. With all fields combined every line reads
    [(combined keys): note_id:<id> [TAGGED]]. *)
Theorem trace_is_capped self duplicates tag w :
  displayable self duplicates →
  present w (tag_plan duplicates) →
  ∃ w' total trace,
    _apply_tag_to_duplicates self duplicates tag w = (w', Ok (total, trace))
    ∧ trace = take 50 (trace_lines self duplicates)
    ∧ length trace = (50 `min` Z.to_nat total)%nat
    ∧ length (trace_lines self duplicates) = Z.to_nat total
    ∧ (selected_key self = COMBINE_ALL →
       trace_lines self duplicates
       = (λ note_id, "(combined keys): note_id:" +:+ str_int note_id
                     +:+ " [TAGGED]") <$> new_writes w w').
Proof.
  intros Hdisp Hall.
  exists (tag_all tag (tag_plan duplicates) w),
    (Z.of_nat (length (tag_plan duplicates))), (trace_of self duplicates).
  rewrite tag_all_new_writes by done.
  assert (trace_of self duplicates = take 50 (trace_lines self duplicates))
    as Htrace.
  { unfold trace_of.
    by rewrite (acc_buckets_details self duplicates _ []). }
  split; [by apply apply_tag_ok|]. split; [done|].
  rewrite Htrace, length_take, Nat2Z.id, trace_lines_length by done.
  split; [lia|]. split; [done|].
  intros Hsel. clear Hall Htrace Hdisp.
  induction duplicates as [|item rest IH]; [done|].
  rewrite tag_plan_cons, fmap_app, <- IH. unfold trace_lines. csimpl.
  f_equal. unfold key_display_of. by rewrite decide_True.
Qed.

(** * What a whole run tags *)

Lemma elem_of_tag_plan duplicates x :
  x ∈ tag_plan duplicates
  ↔ ∃ key ids, (key, ids) ∈ duplicates ∧ x ∈ to_tag ids.
Proof.
  split.
  - intros (l & Hx & Hl)%elem_of_concat.
    apply list_elem_of_fmap in Hl as (ids & -> & Hids).
    apply list_elem_of_fmap in Hids as ([key ids'] & -> & Hin).
    by exists key, ids'.
  - intros (key & ids & Hin & Hx). by eapply to_tag_in_plan.
Qed.

(** Among distinct identifiers the tagger takes those that have a smaller
    one beside them. *)
Lemma elem_of_to_tag ids x :
  NoDup ids →
  x ∈ to_tag ids ↔ x ∈ ids ∧ ∃ y, y ∈ ids ∧ y < x.
Proof.
  intros Hnd. unfold to_tag. case_decide as Hlen.
  - split; [by intros ?%elem_of_nil|]. intros (Hx & y & Hy & Hlt).
    destruct ids as [|a [|b l]]; simpl in Hlen; [by apply elem_of_nil in Hx| |lia].
    apply list_elem_of_singleton in Hx as ->.
    apply list_elem_of_singleton in Hy as ->. lia.
  - destruct (sorted_head ids) as (i0 & rest & Hsorted & _ & Hmin); [lia|].
    pose proof (sorted_Permutation ids) as Hperm.
    rewrite Hsorted in Hperm. rewrite Hsorted. simpl.
    rewrite <- Hperm in Hnd. apply NoDup_cons in Hnd as [Hi0 _].
    split.
    + intros Hx. split; [rewrite <- Hperm; by right|].
      exists i0. split; [rewrite <- Hperm; by left|].
      assert (i0 ≤ x) by (apply Hmin; rewrite <- Hperm; by right).
      assert (i0 ≠ x) by (by intros ->). lia.
    + intros (Hx & y & Hy & Hlt). rewrite <- Hperm in Hx.
      apply elem_of_cons in Hx as [->|Hx]; [|done].
      specialize (Hmin y Hy). lia.
Qed.

(** X5. A run over distinct identifiers that are all in the collection
    returns its summary, and it writes a listed note exactly when another
    listed note filed under the same key has a smaller identifier: of the
    notes sharing a key the one with the least identifier is kept, every
    other one is written once and gets the label, and nothing else in the
    collection changes. The count in the summary is the number of
    writes. *)
Theorem run_keeps_least_of_each_key self w note_ids :
  findNotes w (anki_filter self) = Ok note_ids →
  NoDup note_ids →
  present w note_ids →
  ∃ w',
    _tag_duplicates self w
    = (w', Ok (Some (summary (Z.of_nat (length (new_writes w w')))
                             (tag_to_apply_of self))))
    ∧ NoDup (new_writes w w')
    ∧ (∀ x, x ∈ new_writes w w'
            ↔ x ∈ note_ids
              ∧ ∃ y, y ∈ note_ids ∧ y < x
                     ∧ is_Some (key_of self w x)
                     ∧ key_of self w y = key_of self w x)
    ∧ (∀ x, notes w' !! x
            = if decide (x ∈ new_writes w w')
              then addTag (tag_to_apply_of self) <$> notes w !! x
              else notes w !! x)
    ∧ shown w' = shown w
    ∧ resets w' = S (resets w).
Proof.
  intros Hfind Hnd Hall.
  destruct (group_duplicates_ok self w note_ids) as [duplicates Hgroup].
  { unfold present in Hall. by rewrite Forall_forall in Hall. }
  destruct (grouped_is_taggable self w _ _ Hnd Hgroup)
    as (Hnd' & Hall' & Hdisp).
  assert (present w (tag_plan duplicates)) as Hplan.
  { unfold present in *. rewrite Forall_forall in *. intros x Hx.
    apply Hall'. eapply elem_of_submseteq; [exact Hx|].
    apply tag_plan_submseteq. }
  exists (reset (tag_all (tag_to_apply_of self) (tag_plan duplicates) w)).
  assert (new_writes w
            (reset (tag_all (tag_to_apply_of self) (tag_plan duplicates) w))
          = tag_plan duplicates) as ->.
  { by apply (tag_all_new_writes (tag_to_apply_of self)). }
  split_and!.
  - unfold _tag_duplicates, bind, _collect_note_ids. rewrite Hfind, Hgroup.
    unfold tag_and_report, bind. fold (tag_to_apply_of self).
    by rewrite apply_tag_ok.
  - by apply tag_plan_NoDup.
  - intros x. rewrite elem_of_tag_plan. split.
    + intros (key & ids & Hin & Hx).
      pose proof (group_duplicates_bucket self w _ _ _ _ Hgroup Hin) as Hids.
      apply elem_of_to_tag in Hx as (Hx & y & Hy & Hlt).
      2:{ rewrite Hids. by apply NoDup_filter. }
      rewrite Hids in Hx, Hy.
      apply list_elem_of_filter in Hx as [Hkx Hx].
      apply list_elem_of_filter in Hy as [Hky Hy].
      split; [done|]. exists y. rewrite Hkx, Hky. by split_and!.
    + intros (Hx & y & Hy & Hlt & [key Hkx] & Hky).
      destruct (group_duplicates_filed self w _ _ _ _ Hgroup Hx Hkx)
        as (ids & Hin & Hmem).
      pose proof (group_duplicates_bucket self w _ _ _ _ Hgroup Hin) as Hids.
      exists key, ids. split; [done|]. apply elem_of_to_tag.
      { rewrite Hids. by apply NoDup_filter. }
      split; [done|]. exists y. split; [|done].
      rewrite Hids. apply list_elem_of_filter. split; [congruence|done].
  - intros x. apply (tag_all_lookup (tag_to_apply_of self)).
  - simpl. by destruct (tag_all_frame (tag_to_apply_of self)
                          (tag_plan duplicates) w) as (-> & _).
  - simpl. by destruct (tag_all_frame (tag_to_apply_of self)
                          (tag_plan duplicates) w) as (_ & -> & _).
Qed.

(** Every run of [_tag_duplicates] ends in one of two ways. *)
Lemma tag_duplicates_outcome self w w' r :
  _tag_duplicates self w = (w', r) →
  (r = Ok (Some (summary (Z.of_nat (length (new_writes w w')))
                         (tag_to_apply_of self)))
   ∧ shown w' = shown w ∧ resets w' = S (resets w) ∧ closed w' = closed w)
  ∨ (r = Ok None
     ∧ new_writes w w' = [] ∧ notes w' = notes w
     ∧ resets w' = resets w ∧ closed w' = closed w
     ∧ ∃ e : exn,
         (shown w' = shown w ++ ["Error executing filter: " +:+ str_exn e]
          ∧ findNotes w (anki_filter self) = Raise e)
         ∨ (shown w'
            = shown w ++ ["Error while locating duplicates: " +:+ str_exn e]
            ∧ ∃ note_ids, findNotes w (anki_filter self) = Ok note_ids
                          ∧ ¬ present w note_ids)).
Proof.
  unfold _tag_duplicates, bind, _collect_note_ids.
  destruct (findNotes w (anki_filter self)) as [note_ids|e] eqn:Hfind.
  - destruct (_group_duplicates self w note_ids) as [duplicates|e] eqn:Hgroup.
    + destruct (group_duplicates_taggable self w _ _ Hgroup) as [Hall Hdisp].
      assert (present w (tag_plan duplicates)) as Hplan.
      { unfold present in *. rewrite Forall_forall in *. intros x Hx.
        apply Hall. eapply elem_of_submseteq; [exact Hx|].
        apply tag_plan_submseteq. }
      unfold tag_and_report, bind. fold (tag_to_apply_of self).
      rewrite apply_tag_ok by done. intros [= <- <-]. left.
      assert (new_writes w
                (reset (tag_all (tag_to_apply_of self)
                                (tag_plan duplicates) w))
              = tag_plan duplicates) as ->.
      { by apply (tag_all_new_writes (tag_to_apply_of self)). }
      destruct (tag_all_frame (tag_to_apply_of self) (tag_plan duplicates) w)
        as (Hs & Hr & Hc & _).
      simpl. by rewrite Hs, Hr, Hc.
    + intros [= <- <-]. right. unfold new_writes. simpl.
      rewrite drop_all. split_and!; try done.
      exists e. right. split; [done|]. exists note_ids. split; [done|].
      intros Hall.
      destruct (group_duplicates_ok self w note_ids) as [d Hd]; [|congruence].
      unfold present in Hall. by rewrite Forall_forall in Hall.
  - intros [= <- <-]. right. unfold new_writes. simpl.
    rewrite drop_all. split_and!; try done. exists e. by left.
Qed.

(** X6. Every click on OK ends normally, as long as the collection is not
    changed from outside meanwhile, and shows exactly one message. The
    window closes exactly when that message is the summary, whose count
    is the number of notes written by this click; otherwise the message
    names what went wrong (no filter, a filter the collection rejects, a
    listed note that is missing), no note has been written, the views are
    not reset and the window stays as it was. Without a filter the
    collection is not even searched. *)
Theorem on_ok_outcome self w w' r :
  _on_ok self w = (w', r) →
  r = Ok tt
  ∧ ((closed w' = true
      ∧ shown w'
        = shown w ++ [summary (Z.of_nat (length (new_writes w w')))
                              (tag_to_apply_of self)]
      ∧ resets w' = S (resets w)
      ∧ anki_filter self ≠ EmptyString)
     ∨ (closed w' = closed w
        ∧ new_writes w w' = [] ∧ notes w' = notes w ∧ resets w' = resets w
        ∧ ((anki_filter self = EmptyString
            ∧ shown w' = shown w ++ ["No Anki filter specified"])
           ∨ (anki_filter self ≠ EmptyString
              ∧ ∃ e : exn,
                  shown w'
                  = shown w ++ ["Error executing filter: " +:+ str_exn e]
                  ∨ shown w'
                    = shown w
                      ++ ["Error while locating duplicates: " +:+ str_exn e])))).
Proof.
  unfold _on_ok. destruct (anki_filter self) as [|c f] eqn:Hfilter.
  - intros [= <- <-]. split; [done|]. right. unfold new_writes. simpl.
    rewrite drop_all. split_and!; try done. by left.
  - rewrite <- Hfilter. unfold bind.
    destruct (_tag_duplicates self w) as [w1 r1] eqn:Hrun.
    apply tag_duplicates_outcome in Hrun
      as [(-> & Hs & Hr & Hc)
         |(-> & Hw & Hn & Hr & Hc & e & Hmsg)].
    + intros [= <- <-]. split; [done|]. left. simpl.
      rewrite Hs, Hr, Hfilter. split_and!; try done.
    + intros [= <- <-]. split; [done|]. right.
      split_and!; try done. right. split; [by rewrite Hfilter|].
      exists e. destruct Hmsg as [[? _]|[? _]]; auto.
Qed.

(** * Settings *)

Lemma DEFAULT_CONFIG_lookup (k : string) :
  DEFAULT_CONFIG !! k
  = if decide (k = "ankiFilter") then Some (PStr EmptyString)
    else if decide (k = "dedupKey") then Some (PStr COMBINE_ALL)
    else if decide (k = "tagName") then Some (PStr DEFAULT_TAG_NAME)
    else None.
Proof.
  unfold DEFAULT_CONFIG. repeat case_decide; subst; by simplify_map_eq.
Qed.

Lemma updated_lookup (loaded : gmap string pyval) (k : string) :
  (filter (λ item, is_Some (DEFAULT_CONFIG !! item.1)) loaded
     ∪ DEFAULT_CONFIG) !! k
  = match DEFAULT_CONFIG !! k with
    | Some v => Some (default v (loaded !! k))
    | None => None
    end.
Proof.
  rewrite lookup_union, map_lookup_filter.
  destruct (DEFAULT_CONFIG !! k) as [v|] eqn:Hk.
  - destruct (loaded !! k) as [v'|]; simpl; [|done].
    rewrite option_guard_True; [done|]. simpl. by rewrite Hk.
  - destruct (loaded !! k) as [v'|]; simpl; [|done].
    rewrite option_guard_False; [done|]. simpl. rewrite Hk.
    by intros [? ?].
Qed.

Lemma merge_loaded_lookup (loaded : gmap string pyval) (k : string) :
  merge_loaded loaded DEFAULT_CONFIG !! k
  = if decide (k = "ankiFilter") then Some (resolved_filter loaded)
    else if decide (k = "dedupKey") then
      Some (default (PStr COMBINE_ALL)
              (match loaded !! "dedupKey" with
               | Some v => Some v
               | None => loaded !! "selectedKey"
               end))
    else if decide (k = "tagName") then
      Some (default (PStr DEFAULT_TAG_NAME) (loaded !! "tagName"))
    else None.
Proof.
  unfold merge_loaded, resolved_filter.
  assert (∀ (m : gmap string pyval) v,
            (match loaded !! "selectedMethod", loaded !! "tagName" with
             | Some _, None => <["tagName" := v]> m
             | _, _ => m
             end) !! k
            = if decide (k = "tagName")
              then match loaded !! "selectedMethod", loaded !! "tagName" with
                   | Some _, None => Some v
                   | _, _ => m !! k
                   end
              else m !! k) as Hmethod.
  { intros m v. destruct (loaded !! "selectedMethod"), (loaded !! "tagName");
      case_decide; subst; by simplify_map_eq. }
  rewrite Hmethod. clear Hmethod.
  assert (∀ (m : gmap string pyval),
            (match loaded !! "selectedKey", loaded !! "dedupKey" with
             | Some v, None => <["dedupKey" := v]> m
             | _, _ => m
             end) !! k
            = if decide (k = "dedupKey")
              then match loaded !! "selectedKey", loaded !! "dedupKey" with
                   | Some v, None => Some v
                   | _, _ => m !! k
                   end
              else m !! k) as Hkey.
  { intros m. destruct (loaded !! "selectedKey"), (loaded !! "dedupKey");
      case_decide; subst; by simplify_map_eq. }
  rewrite Hkey. clear Hkey.
  rewrite updated_lookup, DEFAULT_CONFIG_lookup.
  destruct (decide (k = "ankiFilter")) as [->|?]; [done|].
  destruct (decide (k = "dedupKey")) as [->|?].
  { rewrite decide_False by done.
    by destruct (loaded !! "selectedKey"), (loaded !! "dedupKey"). }
  destruct (decide (k = "tagName")) as [->|?]; [|done].
  by destruct (loaded !! "selectedMethod"), (loaded !! "tagName").
Qed.

Lemma truthy_default_tag : truthy (PStr DEFAULT_TAG_NAME) = true.
Proof. done. Qed.

Lemma truthy_combine_all : truthy (PStr COMBINE_ALL) = true.
Proof. done. Qed.

Lemma load_config_loaded (loaded : gmap string pyval) (w : World) :
  _load_config (Loaded loaded) w
  = (w, <["ankiFilter" := resolved_filter loaded]>
          (<["dedupKey" := resolved_key loaded]>
             (<["tagName" := resolved_tag loaded]> ∅))).
Proof.
  unfold _load_config. f_equal.
  set (m0 := merge_loaded loaded DEFAULT_CONFIG).
  set (tag := default (PStr DEFAULT_TAG_NAME) (loaded !! "tagName")).
  set (key := default (PStr COMBINE_ALL)
                (match loaded !! "dedupKey" with
                 | Some v => Some v
                 | None => loaded !! "selectedKey"
                 end)).
  assert (resolved_tag loaded = if truthy tag then tag else PStr DEFAULT_TAG_NAME)
    as ->.
  { unfold resolved_tag, tag. by destruct (loaded !! "tagName"). }
  assert (resolved_key loaded = if truthy key then key else PStr COMBINE_ALL)
    as ->.
  { unfold resolved_key, key.
    by destruct (loaded !! "dedupKey"), (loaded !! "selectedKey"). }
  assert (m0 !! "tagName" = Some tag) as Hm0tag
    by (unfold m0; by rewrite merge_loaded_lookup).
  assert (m0 !! "dedupKey" = Some key) as Hm0key
    by (unfold m0; by rewrite merge_loaded_lookup).
  rewrite Hm0tag. cbn [falsy].
  set (m1 := if negb (truthy tag)
             then <["tagName" := PStr DEFAULT_TAG_NAME]> m0 else m0).
  assert (m1 !! "dedupKey" = Some key) as Hm1key.
  { unfold m1. destruct (truthy tag); simpl; [done|].
    by rewrite lookup_insert_ne. }
  rewrite Hm1key. cbn [falsy].
  apply map_eq. intros k. unfold m1.
  destruct (truthy tag), (truthy key); simpl;
    rewrite ?lookup_insert; unfold m0; rewrite ?merge_loaded_lookup;
    repeat case_decide; simplify_eq; try done.
Qed.



(** X8. How a settings dict is resolved. The filter is the document's, or
    empty. The key specification is the document's [dedupKey] if that key
    is there, else its legacy [selectedKey], and "Combine All Keys" when
    that value is missing or falsy. The tag is the document's [tagName],
    and "duplicate-card" when it is missing or falsy. No other key of the
    document has any effect, the legacy [selectedMethod] included. *)
Theorem load_config_resolution (loaded : gmap string pyval) (w : World) :
  _load_config (Loaded loaded) w
  = (w, <["ankiFilter" := resolved_filter loaded]>
          (<["dedupKey" := resolved_key loaded]>
             (<["tagName" := resolved_tag loaded]> ∅)))
  ∧ (∀ k v,
       k ∉ ["ankiFilter"; "dedupKey"; "selectedKey"; "tagName"] →
       _load_config (Loaded (<[k := v]> loaded)) w
       = _load_config (Loaded loaded) w).
Proof.
  split; [apply load_config_loaded|].
  intros k v Hk. rewrite !load_config_loaded.
  assert (∀ k', k' ∈ ["ankiFilter"; "dedupKey"; "selectedKey"; "tagName"] →
                (<[k := v]> loaded) !! k' = loaded !! k') as Hsame.
  { intros k' Hk'. apply lookup_insert_ne. by intros ->. }
  unfold resolved_filter, resolved_key, resolved_tag.
  rewrite (Hsame "ankiFilter"), (Hsame "dedupKey"), (Hsame "selectedKey"),
    (Hsame "tagName") by compute_done.
  done.
Qed.

(** X9. Settings that were saved are the settings loaded back: the filter
    as it is, the key specification as it is unless it is empty (then
    "Combine All Keys"), the tag name as it is unless it is empty (then
    "duplicate-card", which is what is written in that case). *)
Theorem save_then_load self w :
  _save_config self None w = (w, Some (saved_config self))
  ∧ _load_config (Loaded (saved_config self)) w
    = (w, <["ankiFilter" := PStr (anki_filter self)]>
            (<["dedupKey" := PStr (str_or (selected_key self) COMBINE_ALL)]>
               (<["tagName" :=
                    PStr (str_or (tag_name self) DEFAULT_TAG_NAME)]> ∅)))
  ∧ (selected_key self ≠ EmptyString →
     _load_config (Loaded (saved_config self)) w = (w, saved_config self)).
Proof.
  assert (_load_config (Loaded (saved_config self)) w
          = (w, <["ankiFilter" := PStr (anki_filter self)]>
                  (<["dedupKey" :=
                       PStr (str_or (selected_key self) COMBINE_ALL)]>
                     (<["tagName" :=
                          PStr (str_or (tag_name self) DEFAULT_TAG_NAME)]> ∅))))
    as Hload.
  { rewrite load_config_loaded.
    assert (saved_config self !! "ankiFilter"
            = Some (PStr (anki_filter self))) as Hf
      by apply lookup_insert_eq.
    assert (saved_config self !! "dedupKey"
            = Some (PStr (selected_key self))) as Hk.
    { unfold saved_config. rewrite lookup_insert_ne by done.
      apply lookup_insert_eq. }
    assert (saved_config self !! "tagName"
            = Some (PStr (str_or (tag_name self) DEFAULT_TAG_NAME))) as Ht.
    { unfold saved_config. rewrite !lookup_insert_ne by done.
      apply lookup_insert_eq. }
    unfold resolved_filter, resolved_key, resolved_tag.
    rewrite Hf, Hk, Ht. cbn [default truthy].
    destruct (selected_key self), (tag_name self); reflexivity. }
  split; [reflexivity|]. split; [exact Hload|].
  intros Hkey. rewrite Hload. unfold saved_config.
  destruct (selected_key self); [by destruct Hkey|reflexivity].
Qed.

(** * The key selector *)

Lemma sorted_names_elem_of (names : gset string) (f : string) :
  f ∈ sorted_names names ↔ f ∈ names.
Proof.
  unfold sorted_names. rewrite merge_sort_Permutation. apply elem_of_elements.
Qed.

Lemma sorted_names_NoDup (names : gset string) : NoDup (sorted_names names).
Proof.
  unfold sorted_names. rewrite merge_sort_Permutation. apply NoDup_elements.
Qed.

Lemma sorted_names_sorted (names : gset string) :
  StronglySorted String.le (sorted_names names).
Proof. apply StronglySorted_merge_sort; apply _. Qed.

(** X10. When [_update_field_list] has rebuilt the key selector (a filter
    is set and the collection accepts it) the combo box offers "Combine
    All Keys" followed by the field names found, each once, in ascending
    order; the selected key is kept if it is "Combine All Keys" or one of
    the names found, and is reset to "Combine All Keys" otherwise; and the
    combo box shows the selected key. Nothing else changes: not the filter,
    not the tag name, not the collection, and nothing is reported. *)
Theorem update_field_list_selection method form w w' form' note_ids :
  anki_filter (window form) ≠ EmptyString →
  findNotes w (anki_filter (window form)) = Ok note_ids →
  _update_field_list method form w = (w', form', Ok tt) →
  w' = w
  ∧ key_combo form' = COMBINE_ALL :: sorted_names (field_names form')
  ∧ StronglySorted String.le (sorted_names (field_names form'))
  ∧ NoDup (sorted_names (field_names form'))
  ∧ (∀ f, f ∈ sorted_names (field_names form') ↔ f ∈ field_names form')
  ∧ selected_key (window form')
    = (if decide (selected_key (window form) ∈ field_names form'
                  ∨ selected_key (window form) = COMBINE_ALL)
       then selected_key (window form) else COMBINE_ALL)
  ∧ selected_key (window form') ∈ key_combo form'
  ∧ key_current form' = Some (selected_key (window form'))
  ∧ anki_filter (window form') = anki_filter (window form)
  ∧ tag_name (window form') = tag_name (window form)
  ∧ (∀ m, method = Some m → field_names form' = list_to_set (m note_ids)).
Proof.
  intros Hfilter Hfind. unfold _update_field_list.
  destruct (anki_filter (window form)) as [|c f] eqn:Hf; [done|].
  rewrite <- Hf in *. rewrite Hfind.
  destruct (match method with
            | Some m => (list_to_set (m note_ids), Ok tt)
            | None => collect_field_names w (take 100 note_ids) ∅
            end) as [names [[]|e]] eqn:Hnames; [|by destruct (anki_filter _)].
  assert (∀ m, method = Some m → names = list_to_set (m note_ids)) as Hmethod.
  { intros m ->. by injection Hnames as <-. }
  assert (∀ selected,
            (selected ∈ names ∨ selected = COMBINE_ALL) →
            selected ∈ COMBINE_ALL :: sorted_names names) as Hoffered.
  { intros selected [Hin| ->]; [right|by left].
    by apply sorted_names_elem_of. }
  rewrite Hf. rewrite <- Hf.
  case_decide as Hsel; intros [= <- <-]; simpl.
  - rewrite decide_True by done. unfold setCurrentText.
    rewrite decide_True by by apply Hoffered.
    split_and!; try done.
    + apply sorted_names_sorted.
    + apply sorted_names_NoDup.
    + apply sorted_names_elem_of.
    + by apply Hoffered.
  - rewrite decide_False by done. unfold setCurrentText.
    rewrite decide_True by by left.
    split_and!; try done.
    + apply sorted_names_sorted.
    + apply sorted_names_NoDup.
    + apply sorted_names_elem_of.
    + by left.
Qed.

Lemma collect_field_names_ok w note_ids : ∀ names,
  present w note_ids →
  ∃ names',
    collect_field_names w note_ids names = (names', Ok tt)
    ∧ ∀ f, f ∈ names'
           ↔ f ∈ names
             ∨ ∃ note_id note, note_id ∈ note_ids
                               ∧ notes w !! note_id = Some note
                               ∧ f ∈ keys note.
Proof.
  induction note_ids as [|x rest IH]; intros names Hall.
  - exists names. split; [done|]. intros f. split; [by left|].
    intros [?|(? & ? & ?%elem_of_nil & _)]; done.
  - apply Forall_cons in Hall as [[note Hx] Hall].
    destruct (IH (names ∪ list_to_set (keys note)) Hall)
      as (names' & Hrun & Hnames').
    exists names'. split.
    + cbn [collect_field_names]. unfold getNote. by rewrite Hx.
    + intros f. rewrite Hnames', elem_of_union, elem_of_list_to_set. split.
      * intros [[Hf|Hf]|(y & note' & Hy & Hnote' & Hf)]; [by left|right..].
        -- exists x, note. split_and!; [by left|done..].
        -- exists y, note'. split_and!; [by right|done..].
      * intros [Hf|(y & note' & [->|Hy]%elem_of_cons & Hnote' & Hf)].
        -- by left; left.
        -- left; right. congruence.
        -- right. by exists y, note'.
Qed.

Lemma collect_field_names_stops w found x rest : ∀ names,
  present w found → notes w !! x = None →
  ∃ names',
    collect_field_names w (found ++ x :: rest) names
    = (names', Raise (NotFoundError (not_found_msg w x)))
    ∧ ∀ f, f ∈ names'
           ↔ f ∈ names
             ∨ ∃ note_id note, note_id ∈ found
                               ∧ notes w !! note_id = Some note
                               ∧ f ∈ keys note.
Proof.
  induction found as [|y found IH]; intros names Hall Hx.
  - exists names. split.
    + cbn [app collect_field_names]. unfold getNote. by rewrite Hx.
    + intros f. split; [by left|].
      intros [?|(? & ? & ?%elem_of_nil & _)]; done.
  - apply Forall_cons in Hall as [[note Hy] Hall].
    destruct (IH (names ∪ list_to_set (keys note)) Hall Hx)
      as (names' & Hrun & Hnames').
    exists names'. split.
    + cbn [app collect_field_names]. unfold getNote. by rewrite Hy.
    + intros f. rewrite Hnames', elem_of_union, elem_of_list_to_set. split.
      * intros [[Hf|Hf]|(z & note' & Hz & Hnote' & Hf)]; [by left|right..].
        -- exists y, note. split_and!; [by left|done..].
        -- exists z, note'. split_and!; [by right|done..].
      * intros [Hf|(z & note' & [->|Hz]%elem_of_cons & Hnote' & Hf)].
        -- by left; left.
        -- left; right. congruence.
        -- right. by exists z, note'.
Qed.

Lemma update_field_list_fallback_eq form w note_ids :
  anki_filter (window form) ≠ EmptyString →
  findNotes w (anki_filter (window form)) = Ok note_ids →
  _update_field_list None form w
  = (let '(names, fetched) :=
       collect_field_names w (take 100 note_ids) ∅ in
     match fetched with
     | Raise e =>
         (w, {| window := window form; field_names := names;
                key_combo := key_combo form;
                key_current := key_current form |}, Raise e)
     | Ok _ =>
         let items := COMBINE_ALL :: sorted_names names in
         if decide (selected_key (window form) ∈ names
                    ∨ selected_key (window form) = COMBINE_ALL)
         then
           (w, {| window := window form; field_names := names;
                  key_combo := items;
                  key_current :=
                    setCurrentText (selected_key (window form)) items
                      (Some COMBINE_ALL) |}, Ok tt)
         else
           (w, {| window :=
                    {| anki_filter := anki_filter (window form);
                       selected_key := COMBINE_ALL;
                       tag_name := tag_name (window form) |};
                  field_names := names;
                  key_combo := items;
                  key_current :=
                    setCurrentText COMBINE_ALL items (Some COMBINE_ALL) |},
            Ok tt)
     end).
Proof.
  intros Hfilter Hfind. unfold _update_field_list.
  destruct (anki_filter (window form)) as [|c f] eqn:Hf; [done|].
  by rewrite Hfind.
Qed.

(** X11. On a host without [field_names_for_note_ids] the key selector
    looks at the first 100 listed notes only: the field names found are
    the field names of those notes, and a name that only later notes have
    is not offered. The notes are fetched one by one, and a listed note
    among the first 100 that is no longer in the collection makes
    [_update_field_list] raise the collection's error, unhandled, after
    the old field names have been replaced by those of the notes before
    it, the combo box and the selected key being left as they were. *)
Theorem update_field_list_fallback form w note_ids :
  anki_filter (window form) ≠ EmptyString →
  findNotes w (anki_filter (window form)) = Ok note_ids →
  (present w (take 100 note_ids) →
     ∃ form',
       _update_field_list None form w = (w, form', Ok tt)
       ∧ ∀ f, f ∈ field_names form'
              ↔ ∃ note_id note, note_id ∈ take 100 note_ids
                                ∧ notes w !! note_id = Some note
                                ∧ f ∈ keys note)
  ∧ (∀ found x rest,
       take 100 note_ids = found ++ x :: rest →
       present w found → notes w !! x = None →
       ∃ form',
         _update_field_list None form w
         = (w, form', Raise (NotFoundError (not_found_msg w x)))
         ∧ window form' = window form
         ∧ key_combo form' = key_combo form
         ∧ key_current form' = key_current form
         ∧ ∀ f, f ∈ field_names form'
                ↔ ∃ note_id note, note_id ∈ found
                                  ∧ notes w !! note_id = Some note
                                  ∧ f ∈ keys note).
Proof.
  intros Hfilter Hfind.
  rewrite (update_field_list_fallback_eq form w note_ids Hfilter Hfind).
  split.
  - intros Hall.
    destruct (collect_field_names_ok w (take 100 note_ids) ∅ Hall)
      as (names & Hrun & Hnames).
    rewrite Hrun.
    assert (∀ f, f ∈ names
                 ↔ ∃ note_id note, note_id ∈ take 100 note_ids
                                   ∧ notes w !! note_id = Some note
                                   ∧ f ∈ keys note) as Hnames'.
    { intros f'. rewrite Hnames. split; [|by right].
      by intros [?%not_elem_of_empty|?]. }
    case_decide; by eexists.
  - intros found x rest Htake Hall Hx.
    destruct (collect_field_names_stops w found x rest ∅ Hall Hx)
      as (names & Hrun & Hnames).
    rewrite Htake, Hrun.
    eexists. split; [done|]. simpl. split_and!; try done.
    intros f'. rewrite Hnames. split; [|by right].
    by intros [?%not_elem_of_empty|?].
Qed.

(** * The count of a run *)

Lemma dict_append_filed k note_id (d : Groups) :
  length (concat (dict_append k note_id d).*2) = S (length (concat d.*2)).
Proof.
  induction d as [|[k' ids] d IH]; [done|].
  cbn [dict_append]. case_decide; csimpl.
  - rewrite !length_app. simpl. lia.
  - rewrite !length_app, IH. lia.
Qed.

Lemma group_loop_filed self w note_ids : ∀ d d',
  group_loop self w note_ids d = Ok d' →
  length (concat d'.*2)
  = (length (concat d.*2) + length (omap (key_of self w) note_ids))%nat.
Proof.
  induction note_ids as [|note_id rest IH]; intros d d' Hloop.
  - injection Hloop as <-. simpl. lia.
  - rewrite group_loop_cons in Hloop.
    destruct (notes w !! note_id) as [note|] eqn:Hnote; [|done].
    cbn [omap list_omap].
    destruct (key_of self w note_id) as [k|] eqn:Hkey.
    + apply IH in Hloop. rewrite Hloop, dict_append_filed. simpl. lia.
    + by apply IH in Hloop.
Qed.

Lemma expected_count_nonempty (d : Groups) :
  nonempty_buckets d →
  expected_count d = Z.of_nat (length (concat d.*2)) - Z.of_nat (length d).
Proof.
  induction 1 as [|[k ids] d Hne _ IH]; [done|].
  cbn [expected_count foldr] in *. fold (expected_count d). rewrite IH.
  csimpl. rewrite length_app. simpl in Hne.
  destruct ids as [|x ids]; [done|]. case_decide; simpl in *; lia.
Qed.

(** X12. The count in the summary of a run is the number of listed notes
    that are filed (in the collection with a card and a key) less the
    number of distinct keys among them: one note per key is not counted.
    This holds whether or not the listing repeats an identifier. *)
Theorem run_count self w note_ids :
  findNotes w (anki_filter self) = Ok note_ids →
  present w note_ids →
  ∃ w',
    _tag_duplicates self w
    = (w', Ok (Some (summary
                       (Z.of_nat (length (omap (key_of self w) note_ids))
                        - Z.of_nat (length (first_seen
                                              (omap (key_of self w) note_ids))))
                       (tag_to_apply_of self))))
    ∧ Z.of_nat (length (new_writes w w'))
      = Z.of_nat (length (omap (key_of self w) note_ids))
        - Z.of_nat (length (first_seen (omap (key_of self w) note_ids))).
Proof.
  intros Hfind Hall.
  destruct (group_duplicates_ok self w note_ids) as [duplicates Hgroup].
  { unfold present in Hall. by rewrite Forall_forall in Hall. }
  destruct (group_duplicates_taggable self w _ _ Hgroup) as [Hall' Hdisp].
  assert (present w (tag_plan duplicates)) as Hplan.
  { unfold present in *. rewrite Forall_forall in *. intros x Hx.
    apply Hall'. eapply elem_of_submseteq; [exact Hx|].
    apply tag_plan_submseteq. }
  pose proof (group_duplicates_spec self w _ _ Hgroup) as (_ & Hne & _ & _).
  assert (Z.of_nat (length (tag_plan duplicates))
          = Z.of_nat (length (omap (key_of self w) note_ids))
            - Z.of_nat (length (first_seen (omap (key_of self w) note_ids))))
    as Hcount.
  { rewrite tag_plan_length, expected_count_nonempty by done.
    rewrite (group_loop_filed self w note_ids [] duplicates Hgroup).
    rewrite <- (group_duplicates_keys self w note_ids duplicates Hgroup).
    rewrite length_fmap. simpl. lia. }
  exists (reset (tag_all (tag_to_apply_of self) (tag_plan duplicates) w)).
  assert (new_writes w
            (reset (tag_all (tag_to_apply_of self) (tag_plan duplicates) w))
          = tag_plan duplicates) as ->.
  { by apply (tag_all_new_writes (tag_to_apply_of self)). }
  split; [|done].
  unfold _tag_duplicates, bind, _collect_note_ids. rewrite Hfind, Hgroup.
  unfold tag_and_report, bind. fold (tag_to_apply_of self).
  rewrite apply_tag_ok by done. simpl. by rewrite Hcount.
Qed.

(** * The further theorems at work on the scenarios *)

Lemma group_duplicates_grouped_witness :
  let self := ex_window COMBINE_ALL in
  let w := ex_world (Ok [3; 6; 4; 5; 1]) in
  _group_duplicates self w [3; 6; 4; 5; 1]
  = Ok [(["B"; "Y"], [3]); (["A"; "X"], [6; 5; 1])]
  ∧ ∃ e, _group_duplicates self w [3; 9; 1] = Raise e.
Proof.
  intros self w. split.
  - destruct (group_duplicates_grouped self w [3; 6; 4; 5; 1])
      as [Hok _].
    destruct Hok as (Hgroup & _ & _); [compute_done|]. exact Hgroup.
  - destruct (group_duplicates_grouped self w [3; 9; 1]) as [_ Hraise].
    apply Hraise. compute_done.
Defined.

Lemma run_stops_at_first_missing_witness :
  let self := ex_window COMBINE_ALL in
  let w := vanished_world (Ok [6; 5; 2; 1; 3]) in
  _tag_duplicates self w
  = (showInfo "Error while locating duplicates: note 5 not found" w, Ok None).
Proof.
  intros self w.
  apply (run_stops_at_first_missing self w [6] 5 [2; 1; 3]); compute_done.
Defined.

Lemma tagger_stops_at_first_missing_witness :
  let self := ex_window COMBINE_ALL in
  let w := vanished_world (Ok [6; 5; 2; 1; 3]) in
  ∃ w',
    _apply_tag_to_duplicates self vanished_groups "dup" w
    = (w', Raise (NotFoundError "note 5 not found"))
    ∧ new_writes w w' = [2].
Proof.
  intros self w.
  destruct (tagger_stops_at_first_missing self vanished_groups "dup" w
              [2] 5 [6]) as (w' & Hrun & Hwrites & _); [compute_done..|].
  by exists w'.
Defined.

Lemma trace_is_capped_witness :
  let self := ex_window COMBINE_ALL in
  let w := ex_world (Ok [2; 1; 3]) in
  ∃ w' total trace,
    _apply_tag_to_duplicates self ex_groups "dup" w = (w', Ok (total, trace))
    ∧ trace = take 50 (trace_lines self ex_groups)
    ∧ trace_lines self ex_groups = ["(combined keys): note_id:2 [TAGGED]"].
Proof.
  intros self w.
  destruct (trace_is_capped self ex_groups "dup" w)
    as (w' & total & trace & Hrun & Htrace & _); [compute_done..|].
  exists w', total, trace. split_and!; [done..|compute_done].
Defined.

Lemma run_keeps_least_of_each_key_witness :
  let self := ex_window COMBINE_ALL in
  let w := ex_world (Ok [6; 5; 4; 3; 2; 1]) in
  ∃ w',
    _tag_duplicates self w
    = (w', Ok (Some (summary (Z.of_nat (length (new_writes w w'))) "dup")))
    ∧ NoDup (new_writes w w').
Proof.
  intros self w.
  destruct (run_keeps_least_of_each_key self w [6; 5; 4; 3; 2; 1])
    as (w' & Hrun & Hnd & _); [compute_done..|].
  by exists w'.
Defined.

Lemma on_ok_outcome_witness :
  let self := ex_window COMBINE_ALL in
  let w := ex_world (Ok [1; 2; 3]) in
  (_on_ok self w).2 = Ok tt.
Proof.
  intros self w.
  destruct (on_ok_outcome self w (_on_ok self w).1 (_on_ok self w).2)
    as [Hr _]; [by destruct (_on_ok self w)|exact Hr].
Defined.

Lemma load_config_resolution_witness :
  let loaded : gmap string pyval :=
    <["selectedKey" := PStr "Front"]> (<["tagName" := PStr EmptyString]> ∅) in
  let w := ex_world (Ok []) in
  _load_config (Loaded (<["selectedMethod" := PStr "tag"]> loaded)) w
  = _load_config (Loaded loaded) w.
Proof.
  intros loaded w.
  destruct (load_config_resolution loaded w) as [_ Hignored].
  apply Hignored. compute_done.
Defined.

Lemma save_then_load_witness :
  let w := ex_world (Ok []) in
  _load_config (Loaded (saved_config (ex_window "Front"))) w
  = (w, saved_config (ex_window "Front")).
Proof.
  intros w.
  destruct (save_then_load (ex_window "Front") w) as (_ & _ & Hsame).
  apply Hsame. compute_done.
Defined.

Lemma update_field_list_selection_witness :
  let form := {| window := ex_window "Gone"; field_names := ∅;
                 key_combo := []; key_current := None |} in
  let w := ex_world (Ok [1; 2; 3]) in
  let form' := (_update_field_list None form w).1.2 in
  selected_key (window form') ∈ key_combo form'
  ∧ key_current form' = Some (selected_key (window form')).
Proof.
  intros form w form'.
  destruct (update_field_list_selection None form w w form' [1; 2; 3])
    as (_ & _ & _ & _ & _ & _ & Hoffered & Hcurrent & _); [compute_done..|].
  by split.
Defined.

Lemma update_field_list_fallback_witness :
  let form := {| window := ex_window "Front"; field_names := ∅;
                 key_combo := []; key_current := None |} in
  let w := vanished_world (Ok [1; 5; 2]) in
  ∃ form',
    _update_field_list None form w
    = (w, form', Raise (NotFoundError "note 5 not found"))
    ∧ key_combo form' = [].
Proof.
  intros form w.
  destruct (update_field_list_fallback form w [1; 5; 2]) as [_ Hstops];
    [compute_done..|].
  destruct (Hstops [1] 5 [2]) as (form' & Hrun & _ & Hcombo & _);
    [compute_done..|].
  by exists form'.
Defined.

Lemma run_count_witness :
  let self := ex_window COMBINE_ALL in
  let w := ex_world (Ok [6; 5; 4; 3; 2; 1]) in
  ∃ w', _tag_duplicates self w
        = (w', Ok (Some "Total: 3 notes tagged as 'dup'")).
Proof.
  intros self w.
  destruct (run_count self w [6; 5; 4; 3; 2; 1]) as (w' & Hrun & _);
    [compute_done..|].
  exists w'. exact Hrun.
Defined.
